(** * subcalc-auggie-orchestrator: a verification development

    The development embeds the coordination engine of the orchestrator:
    the report extractor ([extractTaggedJson]), the promise-chain mutex
    ([SimpleMutex.runExclusive]), the workspace tools with their path guard
    ([safePath], [createCommonTools], [createVerifierTools]) and the three
    role loops of [runOrchestrator].

    JavaScript strings are sequences of UTF-16 code units; they are modelled
    as lists of code units ([N]).  JavaScript numbers that only count
    (the iteration counter, [ranCount], clock readings) are modelled as
    unbounded integers.  Host functions ([JSON.parse], [JSON.stringify],
    node:path, node:fs, the model client) are parameters of the
    definitions that call them.

    Main results, by module:
    - [Extract]: C6 [extract_selects_first_block],
      C7 [extract_not_found_or_failure];
    - [Mutex]: C1 [runExclusive_serialises];
    - [Tools]: C8 [verifier_tools_exclude_mutation],
      C10 [safePath_rejects_any_dotdot];
    - [Orchestrator]: C2 [termination_on_completion_only],
      C3 [prompt_failure_rejects_loop], C4 [refactorer_consumes_trigger],
      C5 [iteration_counts_builder_passes],
      C9 [sleep_after_abort_runs_full_timer].

    Further properties of the same code (X1 to X23) follow in
    [ExtractMore], [ToolsMore] and [OrchestratorMore]. *)

From Stdlib Require Import ZArith NArith List Bool Lia String Ascii.
From Stdlib Require Import Sorting.Sorted.
From Stdlib Require Import QArith Qround.
From Stdlib Require Import Floats.PrimFloat.
From stdpp Require Import base option list gmap strings sorting.

Local Open Scope Z_scope.

(** ** JavaScript strings *)

Module JsString.

Definition jsstring := list N.

(** A source literal (ASCII only) as a string of code units. *)
Definition lit (s : string) : jsstring :=
  map N_of_ascii (list_ascii_of_string s).

(** [s.startsWith(needle)] on the suffix [s]. *)
Fixpoint starts_with (needle s : jsstring) : bool :=
  match needle, s with
  | [], _ => true
  | c :: needle', d :: s' => N.eqb c d && starts_with needle' s'
  | _ :: _, [] => false
  end.

(** Left-to-right scan of the suffix [s] that starts at offset [k]. *)
Fixpoint search (needle s : jsstring) (k : nat) {struct s} : option nat :=
  match s with
  | [] => if starts_with needle [] then Some k else None
  | _ :: s' => if starts_with needle s then Some k else search needle s' (S k)
  end.

(** [text.indexOf(needle, position)]: the position is clamped to
    [0 .. text.length]; the result is [-1] when there is no occurrence. *)
Definition indexOf (text needle : jsstring) (position : Z) : Z :=
  let start := Z.to_nat (Z.min (Z.max position 0) (Z.of_nat (length text))) in
  match search needle (drop start text) start with
  | Some k => Z.of_nat k
  | None => -1
  end.

(** [text.includes(needle)]. *)
Definition includes (text needle : jsstring) : bool :=
  0 <=? indexOf text needle 0.

(** [text.slice(from, to)], with JavaScript's treatment of negative and
    out-of-range indices. *)
Definition slice (text : jsstring) (from to : Z) : jsstring :=
  let len := Z.of_nat (length text) in
  let rel i := if i <? 0 then Z.max (len + i) 0 else Z.min i len in
  let a := rel from in
  let b := rel to in
  take (Z.to_nat (Z.max (b - a) 0)) (drop (Z.to_nat a) text).

(** The code units removed by [trim]: ECMAScript WhiteSpace and
    LineTerminator. *)
Definition is_white_space (c : N) : bool :=
  ((9 <=? c) && (c <=? 13) || (c =? 32) || (c =? 160) || (c =? 5760)
   || (8192 <=? c) && (c <=? 8202) || (c =? 8232) || (c =? 8233)
   || (c =? 8239) || (c =? 8287) || (c =? 12288) || (c =? 65279))%N.

Fixpoint trimStart (s : jsstring) : jsstring :=
  match s with
  | c :: s' => if is_white_space c then trimStart s' else s
  | [] => []
  end.

Definition trimEnd (s : jsstring) : jsstring := rev (trimStart (rev s)).

Definition trim (s : jsstring) : jsstring := trimEnd (trimStart s).

(** Declarative reading of "the needle occurs in the text at offset k". *)
Definition occurs_at (needle text : jsstring) (k : nat) : Prop :=
  take (length needle) (drop k text) = needle.

(** "k is the first occurrence of the needle at or after [from]". *)
Definition first_occurrence (needle text : jsstring) (from k : nat) : Prop :=
  (from <= k)%nat /\ occurs_at needle text k /\
  forall k', (from <= k')%nat -> (k' < k)%nat -> ~ occurs_at needle text k'.

Lemma starts_with_spec needle s :
  starts_with needle s = true <-> take (length needle) s = needle.
Proof.
  revert s; induction needle as [|c needle IH]; intros s; simpl.
  - by rewrite take_0.
  - destruct s as [|d s]; simpl; [split; discriminate|].
    rewrite andb_true_iff, N.eqb_eq, IH. split.
    + intros [-> ->]; reflexivity.
    + intros H; injection H as -> H; auto.
Qed.

Lemma starts_with_occurs needle text k :
  starts_with needle (drop k text) = true <-> occurs_at needle text k.
Proof. apply starts_with_spec. Qed.

Lemma search_Some needle s k r :
  search needle s k = Some r ->
  (k <= r)%nat /\ starts_with needle (drop (r - k) s) = true /\
  forall i, (i < r - k)%nat -> starts_with needle (drop i s) = false.
Proof.
  revert k; induction s as [|d s IH]; intros k; simpl.
  - destruct needle; [|discriminate]. intros [= <-].
    rewrite Nat.sub_diag. repeat split; [lia|]. intros i Hi; lia.
  - destruct (starts_with needle (d :: s)) eqn:E.
    + intros [= <-]. rewrite Nat.sub_diag. simpl.
      repeat split; [lia|done|]. intros i Hi; lia.
    + intros H. apply IH in H as (Hle & Hocc & Hmin).
      replace (r - k)%nat with (S (r - S k)) by lia. simpl.
      repeat split; [lia|done|].
      intros [|i] Hi; simpl; [done|]. apply Hmin; lia.
Qed.

Lemma search_None needle s k :
  search needle s k = None ->
  forall i, starts_with needle (drop i s) = false.
Proof.
  revert k; induction s as [|d s IH]; intros k; simpl.
  - destruct needle; [discriminate|]. intros _ i. by rewrite drop_nil.
  - destruct (starts_with needle (d :: s)) eqn:E; [discriminate|].
    intros H [|i]; simpl; [done|]. by apply (IH (S k)).
Qed.

(** [indexOf] returns the first occurrence at or after the (in-range)
    position, and [-1] exactly when there is none. *)
Lemma indexOf_found text needle (from : nat) r :
  (from <= length text)%nat ->
  indexOf text needle (Z.of_nat from) = r -> 0 <= r ->
  first_occurrence needle text from (Z.to_nat r).
Proof.
  intros Hfrom. unfold indexOf.
  replace (Z.to_nat _) with from by lia.
  destruct (search needle (drop from text) from) as [k|] eqn:E; [|lia].
  intros <- _. rewrite Nat2Z.id.
  apply search_Some in E as (Hle & Hocc & Hmin).
  split; [done|]. split.
  - apply starts_with_occurs. rewrite drop_drop in Hocc.
    by replace (from + (k - from))%nat with k in Hocc by lia.
  - intros k' H1 H2 Hk'. apply starts_with_occurs in Hk'.
    specialize (Hmin (k' - from)%nat). rewrite drop_drop in Hmin.
    replace (from + (k' - from))%nat with k' in Hmin by lia.
    rewrite Hmin in Hk'; [discriminate|lia].
Qed.

Lemma indexOf_range text needle position :
  -1 <= indexOf text needle position.
Proof.
  unfold indexOf. destruct (search _ _ _); lia.
Qed.

Lemma indexOf_absent text needle (from : nat) :
  (from <= length text)%nat ->
  indexOf text needle (Z.of_nat from) < 0 ->
  forall k, (from <= k)%nat -> ~ occurs_at needle text k.
Proof.
  intros Hfrom. unfold indexOf.
  replace (Z.to_nat _) with from by lia.
  destruct (search needle (drop from text) from) as [k|] eqn:E; [lia|].
  intros _ k Hk Hocc. apply starts_with_occurs in Hocc.
  pose proof (search_None _ _ _ E (k - from)%nat) as H.
  rewrite drop_drop in H.
  replace (from + (k - from))%nat with k in H by lia. congruence.
Qed.

Lemma first_occurrence_unique needle text from k1 k2 :
  first_occurrence needle text from k1 ->
  first_occurrence needle text from k2 -> k1 = k2.
Proof.
  intros (H1 & O1 & M1) (H2 & O2 & M2).
  destruct (Nat.lt_trichotomy k1 k2) as [Hlt|[->|Hlt]]; [|done|].
  - destruct (M2 k1); auto.
  - destruct (M1 k2); auto.
Qed.

Lemma occurs_at_length needle text k :
  needle <> [] -> occurs_at needle text k ->
  (k + length needle <= length text)%nat.
Proof.
  intros Hne Hocc. unfold occurs_at in Hocc.
  apply (f_equal length) in Hocc.
  rewrite length_take, length_drop in Hocc.
  assert (length needle <> 0%nat) by (destruct needle; simpl; congruence).
  lia.
Qed.

End JsString.

(** ** JavaScript values that reach the shared state *)

Module Json.
Import JsString.

(** The values [JSON.parse] produces, which are also the values stored in
    the shared state ([lastReport], [verdict], [blockers]). *)
#[local] Set Warnings "-register-all".

Inductive JSON : Type :=
| JNull
| JBool (b : bool)
| JNumber (x : float)
| JString (s : jsstring)
| JArray (items : list JSON)
| JObject (props : list (jsstring * JSON)).

(** A thrown [Error] object: its [name] and [message]. *)
Record Error : Type := mkError { error_name : jsstring; error_message : jsstring }.

(** [String(e)] for an [Error]: [Error.prototype.toString]. *)
Definition String_of_error (e : Error) : jsstring :=
  match error_name e, error_message e with
  | [], m => m
  | n, [] => n
  | n, m => n ++ lit ": " ++ m
  end.

Definition jsstring_eqb (a b : jsstring) : bool :=
  bool_decide (a = b).

(** Own-property lookup in a parsed object. *)
Fixpoint lookup_prop (name : jsstring) (props : list (jsstring * JSON)) : option JSON :=
  match props with
  | [] => None
  | (k, v) :: rest => if jsstring_eqb k name then Some v else lookup_prop name rest
  end.

(** [(report as any)?.name] for the property names the orchestrator reads
    ([exitCriteriaMet], [wantsRefactor], [verdict], [blockers],
    [refactorRecommended]); [None] is [undefined].  None of these names is
    defined on a prototype, so only objects can answer. *)
Definition optional_get (report : option JSON) (name : jsstring) : option JSON :=
  match report with
  | Some (JObject props) => lookup_prop name props
  | _ => None
  end.

(** [x ?? d]. *)
Definition nullish (x : option JSON) (d : JSON) : JSON :=
  match x with
  | None | Some JNull => d
  | Some v => v
  end.

(** [Boolean(v)]. *)
Definition Boolean (v : JSON) : bool :=
  match v with
  | JNull => false
  | JBool b => b
  | JNumber x => negb (PrimFloat.is_zero x || PrimFloat.is_nan x)
  | JString s => negb (jsstring_eqb s [])
  | JArray _ | JObject _ => true
  end.

(** [v === "literal"]. *)
Definition strict_eq_string (v : JSON) (s : jsstring) : bool :=
  match v with
  | JString t => jsstring_eqb t s
  | _ => false
  end.

End Json.

(** ** The report extractor (util/extractTaggedJson) *)

Module Extract.
Import JsString Json.

Definition start_marker (tag : jsstring) : jsstring :=
  lit "<<<" ++ tag ++ lit ">>>".

Definition end_marker : jsstring := lit "<<<END>>>".

(** The object returned from the [catch] branch. *)
Definition parse_failure (e : Error) (raw : jsstring) : JSON :=
  JObject [(lit "parseError", JString (String_of_error e));
           (lit "raw", JString raw)].

(** [extractTaggedJson(text, tag)]; [None] is [undefined].  [JSON.parse] is
    the host's: it either returns a value or throws an error. *)
Definition extractTaggedJson
    (JSON_parse : jsstring -> JSON + Error) (text tag : jsstring) : option JSON :=
  let start := start_marker tag in
  let i := indexOf text start 0 in
  if i <? 0 then None else
  let j := indexOf text end_marker (i + Z.of_nat (length start)) in
  if j <? 0 then None else
  let raw := trim (slice text (i + Z.of_nat (length start)) j) in
  match JSON_parse raw with
  | inl v => Some v
  | inr e => Some (parse_failure e raw)
  end.

(** The text enclosed between offsets [x] and [y], exactly as it stands. *)
Definition between (text : jsstring) (x y : nat) : jsstring :=
  take (y - x) (drop x text).

(** What is known of the host's [JSON.parse]: JSON's own whitespace is a
    subset of what [trim] removes and a JSON text begins and ends with a
    non-blank character, so trimming a valid text keeps its value. *)
Definition ignores_outer_whitespace (JSON_parse : jsstring -> JSON + Error) : Prop :=
  forall s v, JSON_parse s = inl v -> JSON_parse (trim s) = inl v.

(** A parser given by a finite table of (trimmed text, value) pairs; every
    other text is a syntax error.  It stands for the host's parser in
    concrete runs. *)
Definition table_parser (table : list (jsstring * JSON)) (s : jsstring) : JSON + Error :=
  match lookup_prop (trim s) table with
  | Some v => inl v
  | None => inr (mkError (lit "SyntaxError") (lit "Unexpected token"))
  end.

(** A response in the shape the prompts ask for, with a second end marker
    further on, and the parser used on it. *)
Definition sample_response : jsstring :=
  lit "All done. <<<T>>> {} <<<END>>> trailing <<<END>>>".

Definition sample_parser : jsstring -> JSON + Error :=
  table_parser [(lit "{}", JObject [])].

(** A block whose content is not JSON and is padded with blanks. *)
Definition padded_response : jsstring := lit "<<<T>>> {oops <<<END>>>".

(** *** Facts about [slice] and [trim] *)

Lemma slice_between text (x y : nat) :
  (x <= y)%nat -> (y <= length text)%nat ->
  slice text (Z.of_nat x) (Z.of_nat y) = between text x y.
Proof.
  intros Hxy Hy. unfold slice, between.
  destruct (Z.ltb_spec (Z.of_nat x) 0); [lia|].
  destruct (Z.ltb_spec (Z.of_nat y) 0); [lia|].
  f_equal; [|f_equal]; lia.
Qed.

Lemma trimStart_suffix s :
  exists blanks, s = blanks ++ trimStart s /\ forallb is_white_space blanks = true.
Proof.
  induction s as [|c s (blanks & IH & Hb)]; simpl.
  - by exists [].
  - destruct (is_white_space c) eqn:E.
    + exists (c :: blanks). simpl. rewrite E, Hb. split; [congruence|done].
    + by exists [].
Qed.

Lemma trimStart_head s c rest :
  trimStart s = c :: rest -> is_white_space c = false.
Proof.
  induction s as [|d s IH]; simpl; [discriminate|].
  destruct (is_white_space d) eqn:E; [done|]. by intros [= <- _].
Qed.

Lemma trimStart_fixed c rest :
  is_white_space c = false -> trimStart (c :: rest) = c :: rest.
Proof. intros H; simpl; by rewrite H. Qed.

Lemma trimStart_idempotent s : trimStart (trimStart s) = trimStart s.
Proof.
  destruct (trimStart s) as [|c rest] eqn:E; [done|].
  apply trimStart_fixed. by apply trimStart_head in E.
Qed.

Lemma trim_idempotent s : trim (trim s) = trim s.
Proof.
  unfold trim, trimEnd.
  set (t := trimStart s). set (u := trimStart (rev t)).
  assert (Hfix : trimStart (rev u) = rev u).
  { destruct (trimStart_suffix (rev t)) as (blanks & Hsplit & _).
    fold u in Hsplit. apply (f_equal (@rev N)) in Hsplit.
    rewrite rev_involutive, rev_app_distr in Hsplit.
    destruct (rev u) as [|c rest] eqn:Eu; [done|].
    apply trimStart_fixed.
    apply (trimStart_head s c (rest ++ rev blanks)). fold t. by rewrite Hsplit. }
  rewrite Hfix, rev_involutive. unfold u. by rewrite trimStart_idempotent.
Qed.

Lemma table_parser_ignores_outer_whitespace table :
  ignores_outer_whitespace (table_parser table).
Proof.
  intros s v. unfold table_parser. by rewrite trim_idempotent.
Qed.

Lemma start_marker_nonempty tag : start_marker tag <> [].
Proof. unfold start_marker. simpl. discriminate. Qed.

(** The two scans of [extractTaggedJson] find exactly the first start
    marker and the first end marker after it, whenever some start marker
    is followed by some end marker. *)
Lemma markers_found text tag a b :
  occurs_at (start_marker tag) text a ->
  occurs_at end_marker text b ->
  (a + length (start_marker tag) <= b)%nat ->
  exists i j : nat,
    indexOf text (start_marker tag) 0 = Z.of_nat i /\
    indexOf text end_marker (Z.of_nat i + Z.of_nat (length (start_marker tag))) = Z.of_nat j /\
    first_occurrence (start_marker tag) text 0 i /\
    first_occurrence end_marker text (i + length (start_marker tag)) j /\
    (j <= length text)%nat.
Proof.
  intros Ha Hb Hab.
  set (start := start_marker tag) in *.
  pose proof (indexOf_range text start 0) as Hr.
  destruct (Z.ltb_spec (indexOf text start 0) 0) as [Hneg|Hpos].
  { destruct (indexOf_absent text start 0%nat ltac:(lia) Hneg a); [lia|done]. }
  pose proof (indexOf_found text start 0%nat _ ltac:(lia) eq_refl Hpos) as Hi.
  set (i := Z.to_nat (indexOf text start 0)) in *.
  assert (Hia : (i <= a)%nat).
  { destruct Hi as (_ & _ & Hmin). destruct (Nat.le_gt_cases i a); [done|].
    destruct (Hmin a); [lia|done|done]. }
  assert (Hlen : (i + length start <= length text)%nat).
  { apply occurs_at_length; [apply start_marker_nonempty|apply Hi]. }
  set (from := (i + length start)%nat) in *.
  destruct (Z.ltb_spec (indexOf text end_marker (Z.of_nat from)) 0) as [Hneg|Hpos'].
  { destruct (indexOf_absent text end_marker from Hlen Hneg b); [lia|done]. }
  pose proof (indexOf_found text end_marker from _ Hlen eq_refl Hpos') as Hj.
  exists i, (Z.to_nat (indexOf text end_marker (Z.of_nat from))).
  repeat split; try apply Hi; try apply Hj.
  - unfold i; lia.
  - rewrite <- Nat2Z.inj_add. fold from. lia.
  - destruct Hj as (_ & Hocc & _).
    apply occurs_at_length in Hocc; [lia|discriminate].
Qed.

Lemma indexOf_first text needle (from k : nat) :
  (from <= length text)%nat ->
  first_occurrence needle text from k ->
  indexOf text needle (Z.of_nat from) = Z.of_nat k.
Proof.
  intros Hfrom Hk.
  destruct (Z.ltb_spec (indexOf text needle (Z.of_nat from)) 0) as [Hneg|Hpos].
  - destruct Hk as (Hle & Hocc & _).
    destruct (indexOf_absent text needle from Hfrom Hneg k); done.
  - pose proof (indexOf_found text needle from _ Hfrom eq_refl Hpos) as Hr.
    pose proof (first_occurrence_unique _ _ _ _ _ Hr Hk). lia.
Qed.

(** The result of [extractTaggedJson] once both scans have succeeded. *)
Lemma extract_found JSON_parse text tag (i j : nat) :
  first_occurrence (start_marker tag) text 0 i ->
  first_occurrence end_marker text (i + length (start_marker tag)) j ->
  extractTaggedJson JSON_parse text tag =
    match JSON_parse (trim (between text (i + length (start_marker tag)) j)) with
    | inl v => Some v
    | inr e => Some (parse_failure e
                       (trim (between text (i + length (start_marker tag)) j)))
    end.
Proof.
  intros Hi Hj.
  assert (Hlen : (i + length (start_marker tag) <= length text)%nat).
  { apply occurs_at_length; [apply start_marker_nonempty|apply Hi]. }
  assert (Hjlen : (j <= length text)%nat).
  { destruct Hj as (_ & Hocc & _).
    apply occurs_at_length in Hocc; [lia|discriminate]. }
  unfold extractTaggedJson.
  rewrite (indexOf_first text _ 0%nat i) by (done || lia).
  destruct (Z.ltb_spec (Z.of_nat i) 0); [lia|].
  rewrite <- Nat2Z.inj_add.
  rewrite (indexOf_first text _ _ j Hlen Hj).
  destruct (Z.ltb_spec (Z.of_nat j) 0); [lia|].
  rewrite slice_between; [done| |done]. apply Hj.
Qed.

(** C6.  Whenever the text holds a start marker for the tag and an end
    marker after it, the extractor works on the region between the first
    start marker and the first end marker after it (a left-to-right scan,
    no nesting), and when that region is valid JSON the extractor returns
    the parsed value. *)
Theorem extract_selects_first_block JSON_parse text tag a b :
  ignores_outer_whitespace JSON_parse ->
  occurs_at (start_marker tag) text a ->
  occurs_at end_marker text b ->
  (a + length (start_marker tag) <= b)%nat ->
  exists i j : nat,
    first_occurrence (start_marker tag) text 0 i /\
    first_occurrence end_marker text (i + length (start_marker tag)) j /\
    extractTaggedJson JSON_parse text tag =
      match JSON_parse (trim (between text (i + length (start_marker tag)) j)) with
      | inl v => Some v
      | inr e => Some (parse_failure e
                         (trim (between text (i + length (start_marker tag)) j)))
      end /\
    forall v,
      JSON_parse (between text (i + length (start_marker tag)) j) = inl v ->
      extractTaggedJson JSON_parse text tag = Some v.
Proof.
  intros Hws Ha Hb Hab.
  destruct (markers_found text tag a b Ha Hb Hab) as (i & j & _ & _ & Hi & Hj & _).
  exists i, j. split; [done|]. split; [done|].
  pose proof (extract_found JSON_parse text tag i j Hi Hj) as Hres.
  split; [done|].
  intros v Hv. rewrite Hres. by rewrite (Hws _ _ Hv).
Qed.

(** The sample response: the block ends at the first end marker. *)
Lemma extract_selects_first_block_witness :
  exists i j : nat,
    first_occurrence (start_marker (lit "T")) sample_response 0 i /\
    first_occurrence end_marker sample_response (i + length (start_marker (lit "T"))) j /\
    extractTaggedJson sample_parser sample_response (lit "T") =
      match sample_parser
              (trim (between sample_response (i + length (start_marker (lit "T"))) j)) with
      | inl v => Some v
      | inr e => Some (parse_failure e
                   (trim (between sample_response (i + length (start_marker (lit "T"))) j)))
      end /\
    forall v,
      sample_parser (between sample_response (i + length (start_marker (lit "T"))) j) = inl v ->
      extractTaggedJson sample_parser sample_response (lit "T") = Some v.
Proof.
  apply (extract_selects_first_block sample_parser sample_response (lit "T") 10 21).
  - apply table_parser_ignores_outer_whitespace.
  - reflexivity.
  - reflexivity.
  - simpl; lia.
Defined.

Example extract_sample :
  extractTaggedJson sample_parser sample_response (lit "T") = Some (JObject []).
Proof. reflexivity. Qed.

(** C7, as the code has it.  The extractor is a total function (it has no
    way to throw: the parser's exception is caught).  It answers
    [undefined] when the start marker is absent and when the end marker is
    absent; when both scans succeed and the enclosed text does not parse,
    it answers an object with the parse error and the enclosed text with
    its surrounding whitespace trimmed. *)
Theorem extract_not_found_or_failure JSON_parse text tag :
  ((forall k, ~ occurs_at (start_marker tag) text k) ->
     extractTaggedJson JSON_parse text tag = None) /\
  ((forall k, ~ occurs_at end_marker text k) ->
     extractTaggedJson JSON_parse text tag = None) /\
  (forall (i j : nat) e,
     first_occurrence (start_marker tag) text 0 i ->
     first_occurrence end_marker text (i + length (start_marker tag)) j ->
     JSON_parse (trim (between text (i + length (start_marker tag)) j)) = inr e ->
     extractTaggedJson JSON_parse text tag =
       Some (parse_failure e (trim (between text (i + length (start_marker tag)) j)))).
Proof.
  split; [|split].
  - intros Habs. unfold extractTaggedJson.
    destruct (Z.ltb_spec (indexOf text (start_marker tag) 0) 0) as [|Hpos]; [done|].
    pose proof (indexOf_found text _ 0%nat _ ltac:(lia) eq_refl Hpos) as (_ & Hocc & _).
    by destruct (Habs _ Hocc).
  - intros Habs. unfold extractTaggedJson.
    destruct (Z.ltb_spec (indexOf text (start_marker tag) 0) 0) as [|Hpos]; [done|].
    pose proof (indexOf_found text _ 0%nat _ ltac:(lia) eq_refl Hpos) as (_ & Hocc & _).
    apply occurs_at_length in Hocc; [|apply start_marker_nonempty].
    set (i := indexOf text (start_marker tag) 0) in *.
    replace (i + Z.of_nat (length (start_marker tag)))
      with (Z.of_nat (Z.to_nat i + length (start_marker tag))) by lia.
    destruct (Z.ltb_spec (indexOf text end_marker
                (Z.of_nat (Z.to_nat i + length (start_marker tag)))) 0) as [|Hpos'];
      [done|].
    pose proof (indexOf_found text _ _ _ Hocc eq_refl Hpos') as (_ & Hocc' & _).
    by destruct (Habs _ Hocc').
  - intros i j e Hi Hj He.
    rewrite (extract_found JSON_parse text tag i j Hi Hj). by rewrite He.
Qed.

(** C7 as stated fails here: the enclosed text is [" {oops "], the [raw]
    that comes back is ["{oops"]. *)
Lemma extract_raw_is_not_verbatim :
  first_occurrence (start_marker (lit "T")) padded_response 0 0 /\
  first_occurrence end_marker padded_response 7 14 /\
  between padded_response 7 14 = lit " {oops " /\
  extractTaggedJson (table_parser []) padded_response (lit "T") =
    Some (parse_failure (mkError (lit "SyntaxError") (lit "Unexpected token"))
                        (lit "{oops")) /\
  lit "{oops" <> between padded_response 7 14.
Proof.
  split; [|split; [|split; [|split]]]; try reflexivity; try discriminate.
  - split; [lia|]. split; [reflexivity|]. intros k' _ Hk'; lia.
  - split; [lia|]. split; [reflexivity|].
    intros k' H1 H2. unfold occurs_at.
    assert (Hk : k' ∈ seq 7 7) by (apply elem_of_seq; lia).
    revert Hk. generalize k'. apply Forall_forall. vm_compute.
    repeat constructor; discriminate.
Qed.

End Extract.

(** ** The lock (tools/mutex: SimpleMutex) *)

Module Mutex.
Import Json.

Section Lock.

(** The resource the operations act on, and the type of their results. *)
Variable R : Type.
Variable T : Type.

(** How an async function ends. *)
Inductive Outcome : Type :=
| Returned (v : T)
| Thrown (e : Error).

(** The [fn] handed to [runExclusive]: an async function.  Between two of
    its awaits it runs one segment without interruption; after the last
    segment it returns or throws. *)
Record Operation : Type := mkOperation {
  segments : list (R -> R);
  outcome : Outcome
}.

(** One call of [runExclusive], by where it is suspended:
    - [AwaitPrev prev release fn]: at [await prev] (line 12), having
      replaced [this.p] by the promise that [release] resolves;
    - [InFn release rest o]: at [await fn()] (line 14), [fn] having [rest]
      still to run;
    - [Settled o]: the [finally] block has run and the promise returned by
      [runExclusive] has settled with [o]. *)
Inductive Call : Type :=
| AwaitPrev (prev release : nat) (fn : Operation)
| InFn (release : nat) (rest : list (R -> R)) (o : Outcome)
| Settled (o : Outcome).

(** The mutex object and the event loop around it: [p] is the field
    [this.p] (a promise, by its index in the store of promises),
    [promises] tells which promises are resolved, [calls] are the calls
    made so far, in the order they were made. *)
Record Lock : Type := mkLock {
  p : nat;
  promises : list bool;
  calls : list Call;
  shared : R
}.

(** [new SimpleMutex()]: [p = Promise.resolve()]. *)
Definition init (s0 : R) : Lock :=
  {| p := 0; promises := [true]; calls := []; shared := s0 |}.

(** What the event loop can do next: a caller calls
    [mutex.runExclusive(fn)], or a suspended call is resumed. *)
Inductive Event : Type :=
| Submit (fn : Operation)
| Resume (c : nat).

(** The synchronous head of [runExclusive] (lines 9 to 12). *)
Definition runExclusive (fn : Operation) (st : Lock) : Lock :=
  let prev := p st in
  let release := length (promises st) in
  {| p := release;
     promises := promises st ++ [false];
     calls := calls st ++ [AwaitPrev prev release fn];
     shared := shared st |}.

(** [fn()] is called: it runs up to its first await. *)
Definition enter (release : nat) (fn : Operation) (s : R) : Call * R :=
  match segments fn with
  | [] => (InFn release [] (outcome fn), s)
  | f :: rest => (InFn release rest (outcome fn), f s)
  end.

(** The continuation of call [c]. *)
Definition resume (c : nat) (st : Lock) : option Lock :=
  match calls st !! c with
  | Some (AwaitPrev prev release fn) =>
      match promises st !! prev with
      | Some true =>
          let '(call, s) := enter release fn (shared st) in
          Some {| p := p st; promises := promises st;
                  calls := <[c := call]> (calls st); shared := s |}
      | _ => None
      end
  | Some (InFn release (f :: rest) o) =>
      Some {| p := p st; promises := promises st;
              calls := <[c := InFn release rest o]> (calls st);
              shared := f (shared st) |}
  | Some (InFn release [] o) =>
      (* finally { release(); } and the result or the error goes to the caller *)
      Some {| p := p st; promises := <[release := true]> (promises st);
              calls := <[c := Settled o]> (calls st);
              shared := shared st |}
  | Some (Settled _) | None => None
  end.

Definition step (e : Event) (st : Lock) : option Lock :=
  match e with
  | Submit fn => Some (runExclusive fn st)
  | Resume c => resume c st
  end.

Fixpoint run (events : list Event) (st : Lock) : option Lock :=
  match events with
  | [] => Some st
  | e :: events' =>
      match step e st with
      | Some st' => run events' st'
      | None => None
      end
  end.

(** The operations submitted by a sequence of events, in order. *)
Fixpoint submitted (events : list Event) : list Operation :=
  match events with
  | [] => []
  | Submit fn :: events' => fn :: submitted events'
  | Resume _ :: events' => submitted events'
  end.

(** Running segments one after another. *)
Definition apply_all (fs : list (R -> R)) (s : R) : R :=
  foldl (fun s f => f s) s fs.

(** All segments of the operations, as if each operation ran alone and
    to its end before the next one started. *)
Definition serial (fns : list Operation) : list (R -> R) :=
  concat (map segments fns).

Definition is_settled (c : Call) : bool :=
  match c with Settled _ => true | _ => false end.

(** Resumptions a call still needs before it settles. *)
Definition remaining_call (c : Call) : nat :=
  match c with
  | AwaitPrev _ _ fn => Nat.max 1 (length (segments fn)) + 1
  | InFn _ rest _ => length rest + 1
  | Settled _ => 0
  end.

Definition remaining (st : Lock) : nat :=
  sum_list (map remaining_call (calls st)).

End Lock.

Arguments Returned {T} v.
Arguments Thrown {T} e.
Arguments mkOperation {R T} segments outcome.
Arguments segments {R T} _.
Arguments outcome {R T} _.
Arguments AwaitPrev {R T} prev release fn.
Arguments InFn {R T} release rest o.
Arguments Settled {R T} o.
Arguments p {R T} _.
Arguments promises {R T} _.
Arguments calls {R T} _.
Arguments shared {R T} _.
Arguments init {R T} s0.
Arguments Submit {R T} fn.
Arguments Resume {R T} c.
Arguments runExclusive {R T} fn st.
Arguments enter {R T} release fn s.
Arguments resume {R T} c st.
Arguments step {R T} e st.
Arguments run {R T} events st.
Arguments submitted {R T} events.
Arguments apply_all {R} fs s.
Arguments serial {R T} fns.
Arguments is_settled {R T} c.
Arguments remaining_call {R T} c.
Arguments remaining {R T} st.

(** Two operations on a shared log, each appending before and after an
    await; the first one throws at its end. *)
Definition log_op (tag : string) (o : Outcome unit) : Operation (list string) unit :=
  mkOperation [fun log => log ++ [(tag +:+ ":before")%string];
               fun log => log ++ [(tag +:+ ":after")%string]] o.

Definition op_a : Operation (list string) unit :=
  log_op "A" (Thrown (mkError (JsString.lit "Error") (JsString.lit "boom"))).

Definition op_b : Operation (list string) unit := log_op "B" (Returned ()).

(** Both calls are made before either runs; the event loop then resumes
    whichever call can continue. *)
Definition sample_events : list (Event (list string) unit) :=
  [Submit op_a; Submit op_b; Resume 0%nat; Resume 0%nat; Resume 0%nat;
   Resume 1%nat; Resume 1%nat].

Section LockProofs.

Context {R T : Type}.
Implicit Types (st : Lock R T) (fn : Operation R T) (fns : list (Operation R T)).
Implicit Types (done : list (R -> R)).

(** Where call number [i] must be when [k] calls have settled and the
    call whose turn it is has run the segments [done]: settled with its own
    outcome before [k]; at [k], about to enter or inside its operation; not
    yet entered after [k]. *)
Definition in_turn fns (k : nat) done (i : nat) (c : Call R T) : Prop :=
  exists fn, fns !! i = Some fn /\
    ((i < k)%nat /\ c = Settled (outcome fn)
     \/ i = k /\ (done = [] /\ c = AwaitPrev i (S i) fn
                 \/ exists rest, segments fn = done ++ rest /\
                                 c = InFn (S i) rest (outcome fn))
     \/ (k < i)%nat /\ c = AwaitPrev i (S i) fn).

Record inv (s0 : R) fns (k : nat) done st : Prop := mkInv {
  inv_p : p st = length fns;
  inv_calls_len : length (calls st) = length fns;
  inv_prom_len : length (promises st) = S (length fns);
  inv_prom : forall i b, promises st !! i = Some b -> b = bool_decide (i <= k)%nat;
  inv_calls : forall i (c : Call R T), calls st !! i = Some c -> in_turn fns k done i c;
  inv_k : (k <= length fns)%nat;
  inv_done : k = length fns -> done = [];
  inv_shared : shared st = apply_all (serial (take k fns) ++ done) s0
}.

Lemma apply_all_app (fs gs : list (R -> R)) s :
  apply_all (fs ++ gs) s = apply_all gs (apply_all fs s).
Proof. unfold apply_all. apply foldl_app. Qed.

Lemma serial_app fns1 fns2 : serial (fns1 ++ fns2) = serial fns1 ++ serial fns2.
Proof. unfold serial. by rewrite map_app, concat_app. Qed.

Lemma serial_take_S fns k fn :
  fns !! k = Some fn -> serial (take (S k) fns) = serial (take k fns) ++ segments fn.
Proof.
  intros H. rewrite (take_S_r _ _ _ H), serial_app. unfold serial. simpl.
  by rewrite app_nil_r.
Qed.

Lemma inv_init s0 : inv s0 [] 0 [] (init s0).
Proof.
  split; simpl; try done.
  - intros [|i] b; simpl; [by intros [= <-]|done].
Qed.

Lemma inv_submit s0 fns k done st fn :
  inv s0 fns k done st -> inv s0 (fns ++ [fn]) k done (runExclusive fn st).
Proof.
  intros [Hp Hcl Hpl Hprom Hcalls Hk Hdone Hsh].
  split; simpl; rewrite ?length_app; simpl.
  - lia.
  - lia.
  - lia.
  - intros i b Hi. destruct (decide (i < length (promises st))%nat) as [Hlt|Hge].
    + rewrite lookup_app_l in Hi by done. by apply Hprom.
    + rewrite lookup_app_r in Hi by lia.
      destruct (i - length (promises st))%nat eqn:E; simpl in Hi; [|done].
      injection Hi as <-. symmetry. apply bool_decide_eq_false. lia.
  - intros i c Hi. destruct (decide (i < length (calls st))%nat) as [Hlt|Hge].
    + rewrite lookup_app_l in Hi by done.
      destruct (Hcalls i c Hi) as (fn' & Hfn & Hcase).
      exists fn'. split; [|done]. by apply lookup_app_l_Some.
    + rewrite lookup_app_r in Hi by lia.
      destruct (i - length (calls st))%nat eqn:E; simpl in Hi; [|done].
      injection Hi as <-. assert (i = length fns) as -> by lia.
      exists fn. split.
      { rewrite lookup_app_r by lia. by rewrite Nat.sub_diag. }
      rewrite Hp, Hpl.
      destruct (decide (k = length fns)) as [->|Hne].
      * right; left. split; [done|]. left. split; [by apply Hdone|done].
      * right; right. split; [lia|done].
  - lia.
  - intros ->. lia.
  - by rewrite take_app_le by lia.
Qed.

(** Only the call whose turn it is can be resumed; resuming it keeps the
    invariant and uses up one of its remaining resumptions. *)
Lemma inv_resume s0 fns k done st c st' :
  inv s0 fns k done st -> resume c st = Some st' ->
  c = k /\ exists k' done', inv s0 fns k' done' st'.
Proof.
  intros [Hp Hcl Hpl Hprom Hcalls Hk Hdone Hsh]. unfold resume.
  destruct (calls st !! c) as [call|] eqn:Ec; [|done].
  pose proof (lookup_lt_Some _ _ _ Ec) as Hc.
  destruct (Hcalls c call Ec) as (fn & Hfn & Hcase).
  assert (Hother : forall i c',
            <[c := c']> (calls st) !! i = Some c' /\ i = c
            \/ <[c := c']> (calls st) !! i = calls st !! i /\ i <> c).
  { intros i c'. destruct (decide (i = c)) as [->|Hne].
    - left. split; [by apply list_lookup_insert_eq|done].
    - right. split; [by apply list_lookup_insert_ne|done]. }
  destruct call as [prev release fn'|release rest o|o].
  - (* resumed at [await prev] *)
    destruct (promises st !! prev) as [[|]|] eqn:Eprev; try done.
    assert (prev = c /\ release = S c /\ fn' = fn /\ c = k /\ done = [])
      as (-> & -> & -> & -> & ->).
    { destruct Hcase as [(_ & ?)|[(-> & [(-> & H)|(rest & _ & ?)])|(Hlt & H)]];
        try done.
      - by injection H as -> -> ->.
      - injection H as -> -> ->. apply Hprom in Eprev.
        symmetry in Eprev. apply bool_decide_eq_true in Eprev. lia. }
    unfold enter. destruct (segments fn) as [|f rest] eqn:Eseg;
      intros [= <-]; (split; [done|]).
    + exists k, []. split; simpl; rewrite ?length_insert; try done.
      intros i c' Hi. destruct (Hother i (InFn (S k) [] (outcome fn))) as [[Hi' ->]|[Hi' Hne]];
        rewrite Hi' in Hi.
      * injection Hi as <-. exists fn. split; [done|]. right; left.
        split; [done|]. right. exists []. by rewrite Eseg.
      * by apply Hcalls.
    + exists k, [f]. split; simpl; rewrite ?length_insert; try done.
      * intros i c' Hi.
        destruct (Hother i (InFn (S k) rest (outcome fn))) as [[Hi' ->]|[Hi' Hne]];
          rewrite Hi' in Hi.
        -- injection Hi as <-. exists fn. split; [done|]. right; left.
           split; [done|]. right. exists rest. by rewrite Eseg.
        -- destruct (Hcalls i c' Hi) as (fn' & Hfn' & Hcase').
           exists fn'. split; [done|].
           destruct Hcase' as [?|[(-> & _)|?]]; [by left|done|by right; right].
      * intros ->. lia.
      * rewrite Hsh, !apply_all_app. done.
  - (* resumed inside the operation *)
    assert (c = k /\ release = S c /\ o = outcome fn /\ segments fn = done ++ rest)
      as (-> & -> & -> & Hseg).
    { destruct Hcase as [(_ & ?)|[(-> & [(_ & ?)|(rest' & Hs & H)])|(_ & ?)]];
        try done.
      by injection H as -> -> ->. }
    destruct rest as [|f rest]; intros [= <-]; (split; [done|]).
    + (* finally: release *)
      rewrite app_nil_r in Hseg.
      exists (S k), []. split; simpl; rewrite ?length_insert; try done.
      * intros i b Hi. destruct (decide (i = S k)) as [->|Hne].
        -- rewrite list_lookup_insert_eq in Hi by lia. injection Hi as <-.
           symmetry. apply bool_decide_eq_true. lia.
        -- rewrite list_lookup_insert_ne in Hi by done.
           rewrite (Hprom i b Hi). apply bool_decide_ext. 
           apply Hprom in Hi. split; [lia|]. intros ?.
           destruct (decide (i <= k)%nat); [done|lia].
      * intros i c' Hi.
        destruct (Hother i (Settled (outcome fn))) as [[Hi' ->]|[Hi' Hne]];
          rewrite Hi' in Hi.
        -- injection Hi as <-. exists fn. split; [done|]. left. split; [lia|done].
        -- destruct (Hcalls i c' Hi) as (fn' & Hfn' & Hcase').
           exists fn'. split; [done|].
           destruct Hcase' as [(? & ?)|[(-> & _)|(? & ?)]]; [left|done|].
           ++ split; [lia|done].
           ++ destruct (decide (i = S k)) as [->|Hne'].
              ** right; left. split; [done|]. left. done.
              ** right; right. split; [lia|done].
      * lia.
      * rewrite Hsh, (serial_take_S _ _ _ Hfn), Hseg. by rewrite app_nil_r.
    + exists k, (done ++ [f]). split; simpl; rewrite ?length_insert; try done.
      * intros i c' Hi.
        destruct (Hother i (InFn (S k) rest (outcome fn))) as [[Hi' ->]|[Hi' Hne]];
          rewrite Hi' in Hi.
        -- injection Hi as <-. exists fn. split; [done|]. right; left.
           split; [done|]. right. exists rest. by rewrite <- app_assoc.
        -- destruct (Hcalls i c' Hi) as (fn' & Hfn' & Hcase').
           exists fn'. split; [done|].
           destruct Hcase' as [?|[(-> & _)|?]]; [by left|done|by right; right].
      * intros ->. lia.
      * rewrite Hsh, !apply_all_app. done.
  - done.
Qed.

Lemma inv_run s0 events : forall fns k done st st',
  inv s0 fns k done st -> run events st = Some st' ->
  exists k' done', inv s0 (fns ++ submitted events) k' done' st'.
Proof.
  induction events as [|[fn|c] events IH]; intros fns k done st st' Hinv; simpl.
  - intros [= <-]. rewrite app_nil_r. eauto.
  - intros Hrun. apply (inv_submit _ _ _ _ _ fn) in Hinv.
    destruct (IH _ _ _ _ _ Hinv Hrun) as (k' & done' & H).
    exists k', done'. by rewrite <- app_assoc in H.
  - destruct (resume c st) as [st1|] eqn:E; [|done]. intros Hrun.
    destruct (inv_resume _ _ _ _ _ _ _ Hinv E) as (_ & k1 & done1 & Hinv1).
    eauto.
Qed.

Lemma remaining_insert (l : list (Call R T)) i a b :
  l !! i = Some a -> remaining_call a = S (remaining_call b) ->
  sum_list (map remaining_call l) = S (sum_list (map remaining_call (<[i:=b]> l))).
Proof.
  revert i; induction l as [|x l IH]; intros [|i]; simpl; try done.
  - intros [= ->] ->. lia.
  - intros Hi Hab. rewrite (IH i Hi Hab). lia.
Qed.

Lemma remaining_lookup (l : list (Call R T)) i a :
  l !! i = Some a -> (remaining_call a <= sum_list (map remaining_call l))%nat.
Proof.
  revert i; induction l as [|x l IH]; intros [|i]; simpl; try done.
  - intros [= ->]. lia.
  - intros Hi. specialize (IH i Hi). lia.
Qed.

(** Every resumption uses up exactly one of the remaining ones. *)
Lemma resume_remaining c st st' :
  resume c st = Some st' -> remaining st = S (remaining st').
Proof.
  unfold resume, remaining.
  destruct (calls st !! c) as [[prev release fn|release [|f rest] o|o]|] eqn:Ec;
    try done.
  - destruct (promises st !! prev) as [[|]|]; try done.
    unfold enter. destruct (segments fn) as [|f rest] eqn:Eseg; intros [= <-]; simpl;
      apply (remaining_insert _ _ _ _ Ec); simpl; rewrite Eseg; simpl; lia.
  - intros [= <-]; simpl. by apply (remaining_insert _ _ _ _ Ec).
  - intros [= <-]; simpl. apply (remaining_insert _ _ _ _ Ec). simpl. lia.
Qed.

(** The call whose turn it is can always be resumed. *)
Lemma inv_enabled s0 fns k done st :
  inv s0 fns k done st -> (k < length fns)%nat -> exists st', resume k st = Some st'.
Proof.
  intros [Hp Hcl Hpl Hprom Hcalls Hk Hdone Hsh] Hlt. unfold resume.
  destruct (lookup_lt_is_Some_2 (calls st) k ltac:(lia)) as [c Hc]. rewrite Hc.
  destruct (Hcalls k c Hc) as (fn & Hfn & [(? & _)|[(_ & [(_ & ->)|(rest & _ & ->)])|(? & _)]]);
    try lia.
  - destruct (lookup_lt_is_Some_2 (promises st) k ltac:(lia)) as [b Hb]. rewrite Hb.
    rewrite (Hprom k b Hb), bool_decide_eq_true_2 by lia.
    destruct (enter (S k) fn (shared st)). eauto.
  - destruct rest; eauto.
Qed.

Lemma inv_all_settled s0 fns k done st :
  inv s0 fns k done st -> remaining st = 0%nat ->
  k = length fns /\ shared st = apply_all (serial fns) s0.
Proof.
  intros Hinv Hrem. pose proof Hinv as [Hp Hcl Hpl Hprom Hcalls Hk Hdone Hsh].
  assert (k = length fns) as Hkl.
  { destruct (decide (k = length fns)) as [|Hne]; [done|].
    destruct (lookup_lt_is_Some_2 (calls st) k ltac:(lia)) as [c Hc].
    pose proof (remaining_lookup _ _ _ Hc) as Hle. unfold remaining in Hrem.
    destruct (Hcalls k c Hc)
      as (fn & Hfn & [(? & _)|[(_ & [(_ & ->)|(rest & _ & ->)])|(? & _)]]);
      simpl in Hle; lia. }
  split; [done|]. rewrite Hsh, (Hdone Hkl), app_nil_r. subst k.
  by rewrite firstn_all.
Qed.

(** From every state on the way, resumptions alone bring all calls to
    settle. *)
Lemma inv_drain s0 fns : forall n k done st,
  inv s0 fns k done st -> remaining st = n ->
  exists resumes st' k' done',
    run (map Resume resumes) st = Some st' /\ inv s0 fns k' done' st' /\
    remaining st' = 0%nat.
Proof.
  induction n as [|n IH]; intros k done st Hinv Hrem.
  - exists [], st, k, done. done.
  - destruct (decide (k = length fns)) as [Hkl|Hne].
    + exfalso. pose proof Hinv as [Hp Hcl Hpl Hprom Hcalls Hk Hdone Hsh].
      assert (Hz : forall l : list (Call R T),
                 (forall i c, l !! i = Some c -> is_settled c = true) ->
                 sum_list (map remaining_call l) = 0%nat).
      { induction l as [|x l IHl]; intros Hl; simpl; [done|].
        rewrite IHl by (intros i c Hi; apply (Hl (S i)); done).
        specialize (Hl 0%nat x eq_refl). by destruct x. }
      unfold remaining in Hrem. rewrite Hz in Hrem; [done|].
      intros i c Hi. pose proof (lookup_lt_Some _ _ _ Hi).
      destruct (Hcalls i c Hi) as (fn & _ & [(_ & ->)|[(? & _)|(? & _)]]);
        [done|lia|lia].
    + destruct (inv_enabled _ _ _ _ _ Hinv) as [st1 Hst1].
      { destruct Hinv; lia. }
      pose proof (resume_remaining _ _ _ Hst1) as Hr.
      destruct (inv_resume _ _ _ _ _ _ _ Hinv Hst1) as (_ & k1 & done1 & Hinv1).
      destruct (IH k1 done1 st1 Hinv1 ltac:(lia)) as (resumes & st' & k' & done' & Hrun & Hinv' & Hz).
      exists (k :: resumes), st', k', done'. simpl. rewrite Hst1. done.
Qed.

(** C1.  Operations handed to [runExclusive] by any callers, at any
    moments, run one at a time and in the order of the calls: at every
    moment the calls before some [k] have settled with their own outcome,
    call [k] alone may be inside its operation, the later ones have not
    entered theirs, and the resource holds exactly the effects of the first
    [k] operations run one after another followed by the part [done] of
    operation [k].  Only call [k] can be resumed and it always can; the
    [finally] block resolves the next waiter's promise whatever the
    outcome, a thrown error included; and resumptions alone always bring
    every call to settle, the resource then holding the effects of all the
    operations in the order of the calls. *)
Theorem runExclusive_serialises (s0 : R) (events : list (Event R T)) st :
  run events (init s0) = Some st ->
  exists k done,
    (k <= length (submitted events))%nat /\
    length (calls st) = length (submitted events) /\
    (forall i (c : Call R T), calls st !! i = Some c ->
       in_turn (submitted events) k done i c) /\
    shared st = apply_all (serial (take k (submitted events)) ++ done) s0 /\
    (forall c st', resume c st = Some st' ->
       c = k /\ remaining st = S (remaining st')) /\
    ((k < length (submitted events))%nat -> exists st', resume k st = Some st') /\
    (forall c release o, calls st !! c = Some (InFn release [] o) ->
       exists st', resume c st = Some st' /\
                   promises st' !! release = Some true /\
                   calls st' !! c = Some (Settled o)) /\
    (exists resumes st',
       run (map Resume resumes) st = Some st' /\
       remaining st' = 0%nat /\
       shared st' = apply_all (serial (submitted events)) s0 /\
       forall i fn, submitted events !! i = Some fn ->
                    calls st' !! i = Some (Settled (outcome fn))).
Proof.
  intros Hrun.
  destruct (inv_run s0 events [] 0%nat [] _ _ (inv_init s0) Hrun) as (k & done & Hinv).
  simpl in Hinv. exists k, done.
  pose proof Hinv as [Hp Hcl Hpl Hprom Hcalls Hk Hdone Hsh].
  split; [done|]. split; [done|]. split; [done|]. split; [done|].
  split; [|split; [|split]].
  - intros c st' Hres. split; [|by apply (resume_remaining c)].
    by destruct (inv_resume _ _ _ _ _ _ _ Hinv Hres) as (-> & _).
  - intros Hlt. by apply (inv_enabled _ _ _ _ _ Hinv).
  - intros c release o Hc. pose proof (lookup_lt_Some _ _ _ Hc) as Hlen.
    unfold resume. rewrite Hc. eexists. split; [done|]. simpl.
    destruct (Hcalls c _ Hc)
      as (fn & Hfn & [(_ & ?)|[(_ & [(_ & ?)|(rest & _ & H)])|(_ & ?)]]); try done.
    injection H as -> _ _.
    split; [apply list_lookup_insert_eq; lia|apply list_lookup_insert_eq; lia].
  - destruct (inv_drain s0 _ _ _ _ _ Hinv eq_refl)
      as (resumes & st' & k' & done' & Hrun' & Hinv' & Hz).
    exists resumes, st'.
    destruct (inv_all_settled _ _ _ _ _ Hinv' Hz) as (Hk' & Hsh').
    split; [done|]. split; [done|]. split; [done|].
    intros i fn Hfn. pose proof (lookup_lt_Some _ _ _ Hfn) as Hi.
    destruct Hinv' as [_ Hcl' _ _ Hcalls' _ _ _].
    destruct (lookup_lt_is_Some_2 (calls st') i ltac:(lia)) as [c Hc].
    rewrite Hc. f_equal.
    destruct (Hcalls' i c Hc) as (fn' & Hfn' & [(_ & ->)|[(? & _)|(? & _)]]);
      [congruence|lia|lia].
Qed.

End LockProofs.

(** The two calls above, the first one throwing: the log is the first
    operation's lines followed by the second one's. *)
Lemma runExclusive_serialises_witness :
  exists st,
    run sample_events (init []) = Some st /\
    shared st = ["A:before"; "A:after"; "B:before"; "B:after"]%string /\
    exists k done,
      (k <= length (submitted sample_events))%nat /\
      length (calls st) = length (submitted sample_events) /\
      (forall i (c : Call (list string) unit), calls st !! i = Some c ->
         in_turn (submitted sample_events) k done i c) /\
      shared st = apply_all (serial (take k (submitted sample_events)) ++ done) [] /\
      (forall c st', resume c st = Some st' ->
         c = k /\ remaining st = S (remaining st')) /\
      ((k < length (submitted sample_events))%nat -> exists st', resume k st = Some st') /\
      (forall c release o, calls st !! c = Some (InFn release [] o) ->
         exists st', resume c st = Some st' /\
                     promises st' !! release = Some true /\
                     calls st' !! c = Some (Settled o)) /\
      (exists resumes st',
         run (map Resume resumes) st = Some st' /\
         remaining st' = 0%nat /\
         shared st' = apply_all (serial (submitted sample_events)) [] /\
         forall i fn, submitted sample_events !! i = Some fn ->
                      calls st' !! i = Some (Settled (outcome fn))).
Proof.
  eexists. split; [reflexivity|]. split; [reflexivity|].
  apply (runExclusive_serialises [] sample_events). reflexivity.
Defined.

(** The second call cannot enter its operation while the first one is
    between its two segments: the event loop has nothing to resume there. *)
Example second_call_waits :
  run [Submit op_a; Submit op_b; Resume 0%nat; Resume 1%nat] (init []) = None.
Proof. reflexivity. Qed.

End Mutex.

(** ** The host's path functions (node:path, POSIX flavour)

    [resolve] and [relative] belong to the host, not to this repository.
    The tools are written against any implementation of them; the one
    below follows Node's documented POSIX behaviour and serves for
    concrete paths. *)

Module Path.
Import JsString.

Record PathModule : Type := mkPathModule {
  resolve : jsstring -> jsstring -> jsstring;
  relative : jsstring -> jsstring -> jsstring
}.

Definition slash : N := 47.
Definition dot : N := 46.

(** [s.split("/")]. *)
Fixpoint split_on (sep : N) (s : jsstring) : list jsstring :=
  match s with
  | [] => [[]]
  | c :: s' =>
      if N.eqb c sep then [] :: split_on sep s'
      else match split_on sep s' with
           | [] => [[c]]
           | seg :: segs => (c :: seg) :: segs
           end
  end.

(** [segs.join(sep)]. *)
Fixpoint join (sep : jsstring) (segs : list jsstring) : jsstring :=
  match segs with
  | [] => []
  | [seg] => seg
  | seg :: segs' => seg ++ sep ++ join sep segs'
  end.

(** Node's [normalizeString] below the root: empty and ["."] segments are
    dropped, [".."] removes the segment before it, if any.  The stack is
    kept in reverse. *)
Fixpoint normalize_onto (stack : list jsstring) (segs : list jsstring) : list jsstring :=
  match segs with
  | [] => rev stack
  | seg :: segs' =>
      if bool_decide (seg = []) || bool_decide (seg = [dot]) then
        normalize_onto stack segs'
      else if bool_decide (seg = [dot; dot]) then
        normalize_onto (tail stack) segs'
      else normalize_onto (seg :: stack) segs'
  end.

Definition normalize (path : jsstring) : list jsstring :=
  normalize_onto [] (split_on slash path).

Definition is_absolute (path : jsstring) : bool :=
  match path with
  | c :: _ => N.eqb c slash
  | [] => false
  end.

(** [path.resolve(from, to)] in a process whose working directory is the
    absolute path [cwd]: arguments are taken from the right until an
    absolute one is met, empty ones are skipped. *)
Definition posix_resolve (cwd from to : jsstring) : jsstring :=
  let joined :=
    if is_absolute to then to
    else if is_absolute from then from ++ [slash] ++ to
    else cwd ++ [slash] ++ from ++ [slash] ++ to in
  slash :: join [slash] (normalize joined).

Fixpoint strip_common (xs ys : list jsstring) : list jsstring * list jsstring :=
  match xs, ys with
  | x :: xs', y :: ys' =>
      if bool_decide (x = y) then strip_common xs' ys' else (xs, ys)
  | _, _ => (xs, ys)
  end.

(** [path.relative(from, to)]: both are resolved, the common leading
    segments are dropped, each remaining segment of [from] becomes [".."]. *)
Definition posix_relative (cwd from to : jsstring) : jsstring :=
  let '(up, down) :=
    strip_common (normalize (posix_resolve cwd [] from))
                 (normalize (posix_resolve cwd [] to)) in
  join [slash] (map (fun _ => [dot; dot]) up ++ down).

Definition posix (cwd : jsstring) : PathModule :=
  {| resolve := posix_resolve cwd; relative := posix_relative cwd |}.

Example resolve_plain :
  posix_resolve (lit "/home") (lit "/ws") (lit "src/./a/../b.ts") = lit "/ws/src/b.ts".
Proof. reflexivity. Qed.

Example resolve_escape :
  posix_resolve (lit "/home") (lit "/ws") (lit "../etc/passwd") = lit "/etc/passwd".
Proof. reflexivity. Qed.

Example relative_escape :
  posix_relative (lit "/home") (lit "/ws") (lit "/etc/passwd") = lit "../etc/passwd".
Proof. reflexivity. Qed.

Example relative_inside :
  posix_relative (lit "/home") (lit "/ws") (lit "/ws/src/b.ts") = lit "src/b.ts".
Proof. reflexivity. Qed.

Example relative_same :
  posix_relative (lit "/home") (lit "/ws") (lit "/ws") = [].
Proof. reflexivity. Qed.

End Path.

(** ** The workspace tools (tools/tools.ts) *)

Module Tools.
Import JsString Json Path.

Inductive Mode : Type := builder | verifier | refactorer.

#[global] Instance Mode_eq_dec : EqDecision Mode.
Proof. solve_decision. Defined.

(** What a tool call answers with. *)
Record Stat : Type := mkStat {
  isFile : bool; isDirectory : bool; size : nat; mtimeMs : nat
}.

Inductive ToolResult : Type :=
| ReadResult (path : jsstring) (bytes : Z) (truncated : bool) (contents : jsstring)
| OkResult (path : jsstring)
| EditsResult (path : jsstring) (editsApplied : nat)
| GlobResult (pattern : jsstring) (count : nat) (entries : list jsstring)
| StatResult (path : jsstring) (st : Stat)
| CmdResult (cmd : jsstring) (exitCode : Z) (stdout stderr : jsstring).

(** Inputs, as the schemas describe them. *)
Record ReadInput : Type := { read_path : jsstring; maxBytes : option Z }.
Record WriteInput : Type := {
  write_path : jsstring; contents : jsstring; mkdirp : option bool
}.
Record Edit : Type := { startLine : Z; endLine : Z; replacement : jsstring }.
Record EditsInput : Type := { edits_path : jsstring; edits : list Edit }.
Record PathInput : Type := { path : jsstring }.
Record GlobInput : Type := { pattern : jsstring; ignore : option (list jsstring) }.
Record CmdInput : Type := { cmd : jsstring; timeoutMs : option Z }.

Section WithHost.

(** The workspace as the host sees it (files, processes). *)
Variable W : Type.

(** An async computation on the workspace that returns or throws. *)
Definition Async (A : Type) : Type := W -> W * (A + Error).

Definition ret {A} (a : A) : Async A := fun w => (w, inl a).
Definition throw {A} (e : Error) : Async A := fun w => (w, inr e).
Definition bind {A B} (k : A -> Async B) (m : Async A) : Async B :=
  fun w => match m w with
           | (w', inl a) => k a w'
           | (w', inr e) => (w', inr e)
           end.

#[local] Instance Async_bind : MBind Async := @bind.

(** The host functions the tools call: node:fs/promises, fast-glob, execa
    and [Buffer.toString]. *)
Record Host : Type := mkHost {
  readFile : jsstring -> Async (list N);
  readFile_utf8 : jsstring -> Async jsstring;
  writeFile : jsstring -> jsstring -> Async unit;
  mkdir : jsstring -> Async unit;
  rm : jsstring -> Async unit;
  stat : jsstring -> Async Stat;
  fg : jsstring -> jsstring -> list jsstring -> Async (list jsstring);
  execa : jsstring -> jsstring -> Z -> Async (Z * jsstring * jsstring);
  utf8 : list N -> jsstring
}.

Variable host : Host.
Variable node_path : PathModule.

Record ToolOpts : Type := mkToolOpts {
  workspaceRoot : jsstring;
  allowUnsafe : bool
}.

Definition new_Error (message : jsstring) : Error := mkError (lit "Error") message.

(** [safePath(workspaceRoot, userPath)]. *)
Definition safePath (workspaceRoot userPath : jsstring) : jsstring + Error :=
  let abs := resolve node_path workspaceRoot userPath in
  let rel := relative node_path workspaceRoot abs in
  if starts_with (lit "..") rel || includes rel (lit "..") then
    inr (new_Error (lit "Path escapes workspaceRoot: " ++ userPath))
  else inl abs.

Definition safePathM (workspaceRoot userPath : jsstring) : Async jsstring :=
  match safePath workspaceRoot userPath with
  | inl abs => ret abs
  | inr e => throw e
  end.

Definition allowed : list jsstring :=
  map lit ["pnpm"; "npm"; "yarn"; "node"; "npx"; "git"; "tsx"; "tsc"; "vitest";
           "jest"; "eslint"; "storybook"; "build-storybook"]%string.

(** The first element of [s.split(/\s+/)]. *)
Fixpoint first_word (s : jsstring) : jsstring :=
  match s with
  | [] => []
  | c :: s' => if is_white_space c then [] else c :: first_word s'
  end.

(** [commandAllowed(cmd, allowUnsafe)]. *)
Definition commandAllowed (cmd : jsstring) (allowUnsafe : bool) : bool :=
  if allowUnsafe then true
  else
    let first := first_word (trim cmd) in
    bool_decide (first ∈ allowed).

(** The line edits of [fs_apply_edits]. *)
Fixpoint insert_desc (e : Edit) (sorted : list Edit) : list Edit :=
  match sorted with
  | [] => [e]
  | e' :: rest =>
      if startLine e <? startLine e' then e' :: insert_desc e rest
      else e :: sorted
  end.

(** [[...edits].sort((a, b) => b.startLine - a.startLine)]: descending and
    stable. *)
Definition sort_desc (es : list Edit) : list Edit := foldr insert_desc [] es.

(** [lines.splice(start, deleteCount, ...items)]. *)
Definition splice (lines : list jsstring) (start deleteCount : Z)
    (items : list jsstring) : list jsstring :=
  let len := Z.of_nat (length lines) in
  let s := if start <? 0 then Z.max (len + start) 0 else Z.min start len in
  let d := Z.min (Z.max deleteCount 0) (len - s) in
  take (Z.to_nat s) lines ++ items ++ drop (Z.to_nat (s + d)) lines.

Definition newline : N := 10.

Definition apply_edits (src : jsstring) (es : list Edit) : jsstring :=
  let lines := split_on newline src in
  let edited :=
    foldl (fun lines e =>
             let s := startLine e - 1 in
             let t := endLine e in
             splice lines s (t - s) (split_on newline (replacement e)))
          lines (sort_desc es) in
  join [newline] edited.

(** A tool call either throws before it reaches the lock, or hands a
    body to [opts.lock.runExclusive]. *)
Inductive Execute : Type :=
| Rejected (e : Error)
| Locked (body : Async ToolResult).

(** The call run on its own: what it does to the workspace and what comes
    back to the role's turn. *)
Definition call (x : Execute) : Async ToolResult :=
  match x with
  | Rejected e => throw e
  | Locked body => body
  end.

(** A tool of the SDK: its input type (what [inputSchema] admits), the
    [path] property of an input when the schema has one, and its
    [execute]. *)
Record Tool : Type := mkTool {
  input : Type;
  path_of : input -> option jsstring;
  execute : input -> Execute
}.

Section CommonTools.

Variable opts : ToolOpts.
Variable mode : Mode.

Definition not_available (name : string) : Error :=
  new_Error (lit name ++ lit " not available to verifier").

Definition fs_read_execute (i : ReadInput) : Execute :=
  Locked (
    abs ← safePathM (workspaceRoot opts) (read_path i);
    buf ← readFile host abs;
    let limit := default 200000 (maxBytes i) in
    let truncated := limit <? Z.of_nat (length buf) in
    let sliced := if truncated then take (Z.to_nat limit) buf else buf in
    ret (ReadResult (read_path i) (Z.of_nat (length buf)) truncated
                    (utf8 host sliced))).

Definition fs_write_execute (i : WriteInput) : Execute :=
  if decide (mode = verifier) then Rejected (not_available "fs_write")
  else Locked (
    abs ← safePathM (workspaceRoot opts) (write_path i);
    _ ← (if default false (mkdirp i) then
            let dir := join [slash] (removelast (split_on slash abs)) in
            if bool_decide (dir = []) then ret () else mkdir host dir
          else ret ());
    _ ← writeFile host abs (contents i);
    ret (OkResult (write_path i))).

Definition fs_apply_edits_execute (i : EditsInput) : Execute :=
  if decide (mode = verifier) then Rejected (not_available "fs_apply_edits")
  else Locked (
    abs ← safePathM (workspaceRoot opts) (edits_path i);
    src ← readFile_utf8 host abs;
    _ ← writeFile host abs (apply_edits src (edits i));
    ret (EditsResult (edits_path i) (length (edits i)))).

Definition fs_delete_execute (i : PathInput) : Execute :=
  if decide (mode = verifier) then Rejected (not_available "fs_delete")
  else Locked (
    abs ← safePathM (workspaceRoot opts) (path i);
    _ ← rm host abs;
    ret (OkResult (path i))).

Definition fs_mkdir_execute (i : PathInput) : Execute :=
  if decide (mode = verifier) then Rejected (not_available "fs_mkdir")
  else Locked (
    abs ← safePathM (workspaceRoot opts) (path i);
    _ ← mkdir host abs;
    ret (OkResult (path i))).

Definition default_ignore : list jsstring :=
  map lit ["**/node_modules/**"; "**/dist/**"; "**/.git/**"]%string.

Definition fs_glob_execute (i : GlobInput) : Execute :=
  Locked (
    entries ← fg host (pattern i) (workspaceRoot opts)
                  (default default_ignore (ignore i));
    ret (GlobResult (pattern i) (length entries) entries)).

Definition fs_stat_execute (i : PathInput) : Execute :=
  Locked (
    abs ← safePathM (workspaceRoot opts) (path i);
    s ← stat host abs;
    ret (StatResult (path i) s)).

Definition cmd_run_execute (i : CmdInput) : Execute :=
  Locked (
    if negb (commandAllowed (cmd i) (allowUnsafe opts)) then
      throw (new_Error (lit "Command blocked by allowlist: " ++ cmd i))
    else
      r ← execa host (cmd i) (workspaceRoot opts)
             (default (10 * 60 * 1000) (timeoutMs i));
      let '(exitCode, stdout, stderr) := r in
      ret (CmdResult (cmd i) exitCode stdout stderr)).

(** [createCommonTools(opts)]: the object of the eight tools, by name. *)
Definition createCommonTools : gmap string Tool :=
  list_to_map
    [("fs_read", mkTool ReadInput (fun i => Some (read_path i)) fs_read_execute);
     ("fs_write", mkTool WriteInput (fun i => Some (write_path i)) fs_write_execute);
     ("fs_apply_edits",
      mkTool EditsInput (fun i => Some (edits_path i)) fs_apply_edits_execute);
     ("fs_delete", mkTool PathInput (fun i => Some (path i)) fs_delete_execute);
     ("fs_mkdir", mkTool PathInput (fun i => Some (path i)) fs_mkdir_execute);
     ("fs_glob", mkTool GlobInput (fun _ => None) fs_glob_execute);
     ("fs_stat", mkTool PathInput (fun i => Some (path i)) fs_stat_execute);
     ("cmd_run", mkTool CmdInput (fun _ => None) cmd_run_execute)]%string.

End CommonTools.

Definition createBuilderTools (opts : ToolOpts) : gmap string Tool :=
  createCommonTools opts builder.

Definition createRefactorerTools (opts : ToolOpts) : gmap string Tool :=
  createCommonTools opts refactorer.

(** [createVerifierTools(opts)]: the rest of the destructuring
    [{ fs_write, fs_delete, fs_apply_edits, fs_mkdir, ...rest }]. *)
Definition createVerifierTools (opts : ToolOpts) : gmap string Tool :=
  delete "fs_mkdir"%string
    (delete "fs_apply_edits"%string
       (delete "fs_delete"%string
          (delete "fs_write"%string (createCommonTools opts verifier)))).

(** The operations that change the workspace's files. *)
Definition mutating : list string :=
  ["fs_write"; "fs_delete"; "fs_apply_edits"; "fs_mkdir"]%string.

End WithHost.

Arguments Rejected {W} e.
Arguments Locked {W} body.
Arguments call {W} x.
Arguments input {W} _.
Arguments path_of {W} _ _.
Arguments execute {W} _ _.

(** The call is refused: it comes back with an error and the workspace is
    as it was. *)
Definition refused {W} (x : Execute W) : Prop :=
  forall w, exists e, call x w = (w, inr e).

(** The resolved path lies outside the resolved root: the root's segments
    are not a prefix of the path's. *)
Definition outside (cwd root abs : jsstring) : Prop :=
  ~ normalize (posix_resolve cwd [] root) `prefix_of`
      normalize (posix_resolve cwd [] abs).

Definition escapes (userPath : jsstring) : Error :=
  new_Error (lit "Path escapes workspaceRoot: " ++ userPath).

(** The tools whose input has a [path]. *)
Definition path_tools : list string :=
  ["fs_read"; "fs_write"; "fs_apply_edits"; "fs_delete"; "fs_mkdir"; "fs_stat"]%string.

(** A workspace at [/ws]. *)
Definition ws_opts : ToolOpts :=
  {| workspaceRoot := lit "/ws"; allowUnsafe := false |}.

Section ToolFacts.

Context {W : Type} (host : Host W) (node_path : PathModule).

Lemma safePathM_error root p e w :
  safePath node_path root p = inr e ->
  safePathM W node_path root p w = (w, inr e).
Proof. unfold safePathM. by intros ->. Qed.

(** Every tool that takes a path passes it through [safePath] first, so a
    path the guard rejects is refused by each of them. *)
Lemma path_tools_refuse opts mode p e :
  safePath node_path (workspaceRoot opts) p = inr e ->
  (forall m, refused (fs_read_execute W host node_path opts
                        {| read_path := p; maxBytes := m |})) /\
  (forall c m, refused (fs_write_execute W host node_path opts mode
                          {| write_path := p; contents := c; mkdirp := m |})) /\
  (forall es, refused (fs_apply_edits_execute W host node_path opts mode
                         {| edits_path := p; edits := es |})) /\
  refused (fs_delete_execute W host node_path opts mode {| path := p |}) /\
  refused (fs_mkdir_execute W host node_path opts mode {| path := p |}) /\
  refused (fs_stat_execute W host node_path opts {| path := p |}).
Proof.
  intros He.
  assert (Hbody : forall (k : jsstring -> Async W ToolResult) w,
            bind W k (safePathM W node_path (workspaceRoot opts) p) w = (w, inr e)).
  { intros k w. unfold bind. by rewrite (safePathM_error _ _ _ _ He). }
  repeat split; intros; intros w;
    unfold fs_read_execute, fs_write_execute, fs_apply_edits_execute,
      fs_delete_execute, fs_mkdir_execute, fs_stat_execute;
    try destruct (decide (mode = verifier)); simpl; eauto.
Qed.

(** The same over the tool object: whatever the tool and its input, an
    input whose [path] the guard rejects is refused. *)
Lemma guarded_tools_refuse opts mode p e name (tool : Tool W) :
  safePath node_path (workspaceRoot opts) p = inr e ->
  createCommonTools W host node_path opts mode !! name = Some tool ->
  forall i, path_of tool i = Some p -> refused (execute tool i).
Proof.
  intros He Htool.
  destruct (path_tools_refuse opts mode p e He) as (Hr & Hw & Hed & Hd & Hm & Hs).
  apply elem_of_list_to_map_2 in Htool. set_unfold.
  destruct Htool as [H|[H|[H|[H|[H|[H|[H|[H|[]]]]]]]]];
    injection H as -> ->; intros [] [= <-]; simpl; auto.
Qed.

End ToolFacts.

Lemma strip_common_split xs : forall ys up down,
  strip_common xs ys = (up, down) ->
  exists common, xs = common ++ up /\ ys = common ++ down.
Proof.
  induction xs as [|x xs IH]; intros ys up down; simpl.
  - intros [= <- <-]. by exists [].
  - destruct ys as [|y ys]; [intros [= <- <-]; by exists []|].
    case_bool_decide as Hxy.
    + intros H. destruct (IH _ _ _ H) as (common & -> & ->).
      exists (x :: common). by rewrite Hxy.
    + intros [= <- <-]. by exists [].
Qed.

(** In the POSIX model a path that resolves outside the root has a relative
    form that begins with [".."]. *)
Lemma outside_relative_dotdot cwd root abs :
  outside cwd root abs ->
  starts_with (lit "..") (posix_relative cwd root abs) = true.
Proof.
  intros Hout. unfold posix_relative.
  destruct (strip_common _ _) as [up down] eqn:E.
  destruct (strip_common_split _ _ _ _ E) as (common & Hr & Ha).
  destruct up as [|u up].
  - destruct Hout. rewrite Hr, Ha, app_nil_r. by exists down.
  - change (map (fun _ : jsstring => [dot; dot]) (u :: up) ++ down)
      with ([dot; dot] :: (map (fun _ : jsstring => [dot; dot]) up ++ down)).
    generalize (map (fun _ : jsstring => [dot; dot]) up ++ down).
    intros [|x l]; reflexivity.
Qed.

(** C8.  The object handed to the Verifier has exactly the four
    non-mutating tools; none of [fs_write], [fs_delete], [fs_apply_edits],
    [fs_mkdir] is in it; and each of these four, as built in verifier mode,
    throws on every input before it reaches the lock, so the call comes
    back with an error and the workspace untouched. *)
Theorem verifier_tools_exclude_mutation
    (W : Type) (host : Host W) (node_path : PathModule) (opts : ToolOpts) :
  dom (createVerifierTools W host node_path opts)
    = ({["fs_read"; "fs_glob"; "fs_stat"; "cmd_run"]} : gset string)%string /\
  (forall name, name ∈ mutating ->
     createVerifierTools W host node_path opts !! name = None) /\
  (forall name, name ∈ mutating ->
     exists tool,
       createCommonTools W host node_path opts verifier !! name = Some tool /\
       forall (i : input tool) (w : W),
         execute tool i = Rejected (not_available name) /\
         call (execute tool i) w = (w, inr (not_available name))).
Proof.
  split; [|split].
  - apply (bool_decide_eq_true_1 _). vm_compute. reflexivity.
  - intros name Hname. unfold mutating in Hname.
    set_unfold. destruct Hname as [-> | [-> | [-> | [-> | []]]]]; reflexivity.
  - intros name Hname. unfold mutating in Hname.
    set_unfold. destruct Hname as [-> | [-> | [-> | [-> | []]]]];
      (eexists; split; [reflexivity|]); intros i w; split; reflexivity.
Qed.

(** C10, as the code has it.  The guard rejects every path whose relative
    form (the resolved path taken relative to the root) contains [".."]
    anywhere.  The paths that resolve outside the root are among them; so
    is the file [a..b] directly under the root, which resolves inside the
    workspace and is nevertheless refused, with an error and the workspace
    untouched, by every tool of the tool object when it is the [path] of
    the input.  The tools that take a [path] are six of the seven file
    tools.  The seventh, [fs_glob], takes a pattern and never consults the
    guard: whatever the pattern, [".."] included, it goes to the glob
    library with the workspace root as [cwd], and what the library answers
    is the result. *)
Theorem safePath_rejects_any_dotdot :
  (forall node_path root userPath,
     includes (relative node_path root (resolve node_path root userPath)) (lit "..")
       = true ->
     safePath node_path root userPath = inr (escapes userPath)) /\
  (forall cwd root userPath,
     outside cwd root (posix_resolve cwd root userPath) ->
     safePath (posix cwd) root userPath = inr (escapes userPath)) /\
  (posix_resolve (lit "/") (lit "/ws") (lit "a..b") = lit "/ws/a..b" /\
   posix_relative (lit "/") (lit "/ws") (lit "/ws/a..b") = lit "a..b" /\
   normalize (lit "/ws") `prefix_of` normalize (lit "/ws/a..b") /\
   safePath (posix (lit "/")) (lit "/ws") (lit "a..b") = inr (escapes (lit "a..b"))) /\
  (forall (W : Type) (host : Host W) (mode : Mode) name (tool : Tool W),
     createCommonTools W host (posix (lit "/")) ws_opts mode !! name = Some tool ->
     forall i, path_of tool i = Some (lit "a..b") -> refused (execute tool i)) /\
  (forall (W : Type) (host : Host W) (mode : Mode) name,
     name ∈ path_tools ->
     exists tool : Tool W,
       createCommonTools W host (posix (lit "/")) ws_opts mode !! name = Some tool /\
       exists i, path_of tool i = Some (lit "a..b")) /\
  (forall (W : Type) (host : Host W) (node_path : PathModule) (opts : ToolOpts)
          (mode : Mode),
     createCommonTools W host node_path opts mode !! "fs_glob"%string
       = Some (mkTool W GlobInput (fun _ => None) (fs_glob_execute W host opts)) /\
     forall (i : GlobInput) (w : W),
       call (fs_glob_execute W host opts i) w
       = match fg W host (pattern i) (workspaceRoot opts)
                  (default default_ignore (ignore i)) w with
         | (w', inl entries) =>
             (w', inl (GlobResult (pattern i) (length entries) entries))
         | (w', inr e) => (w', inr e)
         end).
Proof.
  split; [|split; [|split]].
  - intros node_path root userPath Hinc. unfold safePath.
    by rewrite Hinc, orb_true_r.
  - intros cwd root userPath Hout. unfold safePath. cbn [resolve relative posix].
    by rewrite (outside_relative_dotdot _ _ _ Hout).
  - split; [reflexivity|]. split; [reflexivity|]. split; [|reflexivity].
    exists [lit "a..b"]. reflexivity.
  - split; [|split].
    + intros W host mode name tool Htool.
      by apply (guarded_tools_refuse host (posix (lit "/")) ws_opts mode (lit "a..b")
                  (escapes (lit "a..b")) name tool).
    + intros W host mode name Hname. unfold path_tools in Hname. set_unfold.
      destruct Hname as [-> | [-> | [-> | [-> | [-> | [-> | []]]]]]];
        (eexists; split; [reflexivity|]); simpl.
      * by exists {| read_path := lit "a..b"; maxBytes := None |}.
      * by exists {| write_path := lit "a..b"; contents := []; mkdirp := None |}.
      * by exists {| edits_path := lit "a..b"; edits := [] |}.
      * by exists {| path := lit "a..b" |}.
      * by exists {| path := lit "a..b" |}.
      * by exists {| path := lit "a..b" |}.
    + intros W host node_path opts mode. split; [reflexivity|].
      intros i w. unfold call, fs_glob_execute, mbind, Async_bind, bind, ret.
      by destruct (fg W host _ _ _ w) as [w' [entries|e]].
Qed.

(** A path with [".."] that stays inside is rejected as well, while a plain
    path passes. *)
Example safePath_inside_dotdot :
  safePath (posix (lit "/")) (lit "/ws") (lit "src/../a..b/x.ts")
    = inr (escapes (lit "src/../a..b/x.ts")).
Proof. reflexivity. Qed.

Example safePath_plain :
  safePath (posix (lit "/")) (lit "/ws") (lit "src/index.ts")
    = inl (lit "/ws/src/index.ts").
Proof. reflexivity. Qed.

End Tools.

(** ** The coordination engine (orchestrator: runOrchestrator) *)

Module Orchestrator.
Import JsString Json Extract.

Inductive Role : Type := Builder | Verifier | Refactorer.

#[global] Instance Role_eq_dec : EqDecision Role.
Proof. solve_decision. Defined.

(** The host functions the loops call on values. *)
Record Js : Type := mkJs {
  JSON_parse : jsstring -> JSON + Error;
  JSON_stringify : JSON -> jsstring;
  toLowerCase : jsstring -> jsstring
}.

(** The options that steer the loops; the remaining ones only shape the
    prompt texts and the clients. *)
Record OrchestratorOpts : Type := mkOpts {
  maxIterations : Z;
  verifierIntervalSec : Z
}.

(** *** The shared state *)

Record BuilderState : Type := mkBuilder {
  b_lastReport : option JSON;
  exitCriteriaMet : bool;
  wantsRefactor : bool
}.

Record VerifierState : Type := mkVerifier {
  v_lastReport : option JSON;
  verdict : JSON;
  blockers : option JSON;
  refactorRecommended : bool
}.

(** Time stamps are clock readings in milliseconds; the code stores their
    ISO rendering. *)
Record RefactorerState : Type := mkRefactorer {
  r_lastReport : option JSON;
  ranCount : Z;
  lastRanAt : option Z
}.

Record SharedState : Type := mkState {
  startedAt : Z;
  iteration : Z;
  builder : BuilderState;
  verifier : VerifierState;
  refactorer : RefactorerState
}.

Definition REFACTOR_SIGNALS : list jsstring :=
  map lit ["refactor"; "solid"; "architecture"; "layering"; "hexagonal";
           "duplication"; "dead code"; "cyclomatic"; "complexity";
           "performance"; "hot path"; "testability"]%string.

(** [looksLikeRefactor(blockers)]. *)
Definition looksLikeRefactor (js : Js) (blockers : option JSON) : bool :=
  let txt := toLowerCase js (JSON_stringify js (nullish blockers (JArray []))) in
  existsb (fun s => includes txt s) REFACTOR_SIGNALS.

(** *** The three loops as suspended computations

    Each loop is an async function; it is suspended at one of its awaits,
    has returned, or has been rejected by an error that escaped its body.
    A pending [sleep(ms, signal)] is its timer's deadline and whether the
    abort listener has already resolved it. *)

Inductive BuilderPc : Type :=
| BPersistStart             (* await persistState, line 129 *)
| BPrompt                   (* await builderClient.prompt, line 140 *)
| BPersistReport            (* await persistState, line 149 *)
| BDone
| BRejected (e : Error).

Inductive VerifierPc : Type :=
| VPrompt                   (* await verifierClient.prompt, line 174 *)
| VPersist                  (* await persistState, line 183 *)
| VSleep (deadline : Z) (resolved : bool)   (* await sleep, line 196 *)
| VDone
| VRejected (e : Error).

Inductive RefactorerPc : Type :=
| RSleep (deadline : Z) (resolved : bool)   (* await sleep, line 203 *)
| RPrompt                   (* await refactorerClient.prompt, line 220 *)
| RPersist                  (* await persistState, line 229 *)
| RDone
| RRejected (e : Error).

(** Everything [runOrchestrator] holds once the loops are started: the
    shared state, the abort signal, the trigger flag, the clock, the three
    loops, and the prompts issued so far (who asked, with which state). *)
Record World : Type := mkWorld {
  state : SharedState;
  aborted : bool;
  refactorTriggerRequested : bool;
  clock : Z;
  bpc : BuilderPc;
  vpc : VerifierPc;
  rpc : RefactorerPc;
  issued : list (Role * SharedState)
}.

Definition set_state (s : SharedState) (w : World) : World :=
  mkWorld s (aborted w) (refactorTriggerRequested w) (clock w)
          (bpc w) (vpc w) (rpc w) (issued w).

Definition set_trigger (b : bool) (w : World) : World :=
  mkWorld (state w) (aborted w) b (clock w) (bpc w) (vpc w) (rpc w) (issued w).

Definition set_bpc (pc : BuilderPc) (w : World) : World :=
  mkWorld (state w) (aborted w) (refactorTriggerRequested w) (clock w)
          pc (vpc w) (rpc w) (issued w).

Definition set_vpc (pc : VerifierPc) (w : World) : World :=
  mkWorld (state w) (aborted w) (refactorTriggerRequested w) (clock w)
          (bpc w) pc (rpc w) (issued w).

Definition set_rpc (pc : RefactorerPc) (w : World) : World :=
  mkWorld (state w) (aborted w) (refactorTriggerRequested w) (clock w)
          (bpc w) (vpc w) pc (issued w).

(** [client.prompt(prompt)] is called; the prompt embeds the state as it
    is now. *)
Definition issue (r : Role) (w : World) : World :=
  mkWorld (state w) (aborted w) (refactorTriggerRequested w) (clock w)
          (bpc w) (vpc w) (rpc w) (issued w ++ [(r, state w)]).

(** [abort.abort()]: nothing happens when the signal is already aborted;
    otherwise the signal becomes aborted and the abort event runs the
    listeners, which resolve the sleeps pending at that moment. *)
Definition do_abort (w : World) : World :=
  if aborted w then w
  else
    mkWorld (state w) true (refactorTriggerRequested w) (clock w) (bpc w)
      (match vpc w with VSleep d _ => VSleep d true | pc => pc end)
      (match rpc w with RSleep d _ => RSleep d true | pc => pc end)
      (issued w).

(** The delay [setTimeout] really uses. *)
Definition timer_delay (ms : Z) : Z :=
  if (ms <? 1) || (2147483647 <? ms) then 1 else ms.

(** [state.verifier.verdict === "PASS"] and [=== "FAIL"]. *)
Definition verdict_is (s : SharedState) (v : string) : bool :=
  strict_eq_string (verdict (verifier s)) (lit v).

(** The overall completion condition, as both loops test it. *)
Definition complete (s : SharedState) : bool :=
  exitCriteriaMet (builder s) && verdict_is s "PASS".

Definition refactor_wanted (s : SharedState) : bool :=
  verdict_is s "FAIL" && refactorRecommended (verifier s).

Definition with_iteration (n : Z) (s : SharedState) : SharedState :=
  mkState (startedAt s) n (builder s) (verifier s) (refactorer s).

Definition with_builder (b : BuilderState) (s : SharedState) : SharedState :=
  mkState (startedAt s) (iteration s) b (verifier s) (refactorer s).

Definition with_verifier (v : VerifierState) (s : SharedState) : SharedState :=
  mkState (startedAt s) (iteration s) (builder s) v (refactorer s).

Definition with_refactorer (r : RefactorerState) (s : SharedState) : SharedState :=
  mkState (startedAt s) (iteration s) (builder s) (verifier s) r.

Section Loops.

Variable js : Js.
Variable opts : OrchestratorOpts.

(** [(report as any)?.name ?? false], then [Boolean]. *)
Definition flag (report : option JSON) (name : string) : bool :=
  Boolean (nullish (optional_get report (lit name)) (JBool false)).

(** **** The Builder loop *)

(** The loop condition (line 127) and, when it holds, the pass up to its
    first await (lines 128 and 129). *)
Definition builder_head (w : World) : World :=
  if negb (aborted w) && (iteration (state w) <? maxIterations opts) then
    set_bpc BPersistStart
      (set_state (with_iteration (iteration (state w) + 1) (state w)) w)
  else set_bpc BDone w.

(** Lines 131 to 140: the prompt is built and sent. *)
Definition builder_invoke (w : World) : World :=
  set_bpc BPrompt (issue Builder w).

(** Lines 141 to 149: the report is read into the [builder] record. *)
Definition builder_update (response : jsstring) (w : World) : World :=
  let report := extractTaggedJson (JSON_parse js) response (lit "BUILDER_REPORT_JSON") in
  let b := mkBuilder (Some (nullish report (JString response)))
                     (flag report "exitCriteriaMet")
                     (flag report "wantsRefactor") in
  let w1 := set_state (with_builder b (state w)) w in
  let w2 := if wantsRefactor b then set_trigger true w1 else w1 in
  set_bpc BPersistReport w2.

(** Lines 151 to 160, and back to the loop condition. *)
Definition builder_check (w : World) : World :=
  if exitCriteriaMet (builder (state w)) && verdict_is (state w) "PASS" then
    set_bpc BDone (do_abort w)
  else
    let w1 := if refactor_wanted (state w) then set_trigger true w else w in
    builder_head w1.

(** **** The Verifier loop *)

(** The loop condition (line 164) and the pass up to its first await
    (lines 165 to 174). *)
Definition verifier_head (w : World) : World :=
  if negb (aborted w) then set_vpc VPrompt (issue Verifier w)
  else set_vpc VDone w.

(** Lines 175 to 183. *)
Definition verifier_update (response : jsstring) (w : World) : World :=
  let report := extractTaggedJson (JSON_parse js) response (lit "VERIFIER_REPORT_JSON") in
  let blockers := nullish (optional_get report (lit "blockers")) (JArray []) in
  let v := mkVerifier (Some (nullish report (JString response)))
                      (nullish (optional_get report (lit "verdict"))
                               (JString (lit "UNKNOWN")))
                      (Some blockers)
                      (flag report "refactorRecommended"
                       || looksLikeRefactor js (Some blockers)) in
  set_vpc VPersist (set_state (with_verifier v (state w)) w).

(** [sleep(ms, signal)] is called: the timer is armed and the listener is
    added.  A listener added to a signal that is already aborted never
    runs, which [do_abort] accounts for. *)
Definition sleep (ms : Z) (w : World) : Z := clock w + timer_delay ms.

(** Lines 185 to 196. *)
Definition verifier_check (w : World) : World :=
  if verdict_is (state w) "PASS" && exitCriteriaMet (builder (state w)) then
    set_vpc VDone (do_abort w)
  else
    let w1 := if refactor_wanted (state w) then set_trigger true w else w in
    set_vpc (VSleep (sleep (verifierIntervalSec opts * 1000) w1) false) w1.

(** **** The Refactorer loop *)

(** The loop from its condition (line 201) to its next await; [continue]
    goes round again, which the fuel counts. *)
Fixpoint refactorer_loop (fuel : nat) (w : World) : option World :=
  match fuel with
  | O => None
  | S fuel' =>
      if aborted w then Some (set_rpc RDone w)
      else if negb (refactorTriggerRequested w) then
        Some (set_rpc (RSleep (sleep 1000 w) false) w)
      else
        let w1 := set_trigger false w in
        if verdict_is (state w1) "PASS" then refactorer_loop fuel' w1
        else Some (set_rpc RPrompt (issue Refactorer w1))
  end.

Definition refactorer_head (w : World) : option World := refactorer_loop 2 w.

(** Lines 221 to 229. *)
Definition refactorer_update (response : jsstring) (w : World) : World :=
  let report := extractTaggedJson (JSON_parse js) response (lit "REFACTORER_REPORT_JSON") in
  let r := mkRefactorer (Some (nullish report (JString response)))
                        (ranCount (refactorer (state w)) + 1)
                        (Some (clock w)) in
  set_rpc RPersist (set_state (with_refactorer r (state w)) w).

(** **** The event loop *)

(** What can happen next: time passes, a [persistState] settles, a
    [client.prompt] settles (with the response text or with an error), a
    sleeping loop is woken. *)
Inductive Event : Type :=
| Tick (dt : Z)
| Persisted (r : Role) (failure : option Error)
| Prompted (r : Role) (result : jsstring + Error)
| Woken (r : Role).

Definition advance (dt : Z) (w : World) : World :=
  mkWorld (state w) (aborted w) (refactorTriggerRequested w) (clock w + dt)
          (bpc w) (vpc w) (rpc w) (issued w).

(** One turn of the event loop; [None] when the event cannot happen in
    this state. *)
Definition step (e : Event) (w : World) : option World :=
  match e with
  | Tick dt => if 0 <=? dt then Some (advance dt w) else None
  | Persisted Builder failure =>
      match bpc w, failure with
      | BPersistStart, None => Some (builder_invoke w)
      | BPersistReport, None => Some (builder_check w)
      | BPersistStart, Some err | BPersistReport, Some err =>
          Some (set_bpc (BRejected err) w)
      | _, _ => None
      end
  | Prompted Builder result =>
      match bpc w, result with
      | BPrompt, inl response => Some (builder_update response w)
      | BPrompt, inr err => Some (set_bpc (BRejected err) w)
      | _, _ => None
      end
  | Woken Builder => None
  | Persisted Verifier failure =>
      match vpc w, failure with
      | VPersist, None => Some (verifier_check w)
      | VPersist, Some err => Some (set_vpc (VRejected err) w)
      | _, _ => None
      end
  | Prompted Verifier result =>
      match vpc w, result with
      | VPrompt, inl response => Some (verifier_update response w)
      | VPrompt, inr err => Some (set_vpc (VRejected err) w)
      | _, _ => None
      end
  | Woken Verifier =>
      match vpc w with
      | VSleep deadline resolved =>
          if resolved || (deadline <=? clock w) then Some (verifier_head w)
          else None
      | _ => None
      end
  | Persisted Refactorer failure =>
      match rpc w, failure with
      | RPersist, None => refactorer_head w
      | RPersist, Some err => Some (set_rpc (RRejected err) w)
      | _, _ => None
      end
  | Prompted Refactorer result =>
      match rpc w, result with
      | RPrompt, inl response => Some (refactorer_update response w)
      | RPrompt, inr err => Some (set_rpc (RRejected err) w)
      | _, _ => None
      end
  | Woken Refactorer =>
      match rpc w with
      | RSleep deadline resolved =>
          if resolved || (deadline <=? clock w) then refactorer_head w
          else None
      | _ => None
      end
  end.

Fixpoint run (events : list Event) (w : World) : option World :=
  match events with
  | [] => Some w
  | e :: events' =>
      match step e w with
      | Some w' => run events' w'
      | None => None
      end
  end.

(** The state created at line 75. *)
Definition initial_state (t0 : Z) : SharedState :=
  mkState t0 0 (mkBuilder None false false)
          (mkVerifier None (JString (lit "UNKNOWN")) None false)
          (mkRefactorer None 0 None).

(** Lines 121 to 231: the three loops are started one after the other;
    each runs up to its first await. *)
Definition start (t0 now : Z) : option World :=
  let w0 := mkWorld (initial_state t0) false false now BDone VDone RDone [] in
  refactorer_head (verifier_head (builder_head w0)).

(** [Promise.allSettled] at line 233 resolves: every loop has returned or
    has been rejected. *)
Definition finished (w : World) : bool :=
  match bpc w, vpc w, rpc w with
  | (BDone | BRejected _), (VDone | VRejected _), (RDone | RRejected _) => true
  | _, _, _ => false
  end.

End Loops.

(** The loop an event belongs to. *)
Definition role_of (e : Event) : option Role :=
  match e with
  | Tick _ => None
  | Persisted r _ | Prompted r _ | Woken r => Some r
  end.

(** The event reports a failed [persistState] or a failed [prompt]. *)
Definition is_failure (e : Event) : bool :=
  match e with
  | Persisted _ (Some _) | Prompted _ (inr _) => true
  | _ => false
  end.

(** The completion check of a loop runs in this event and finds both
    [builder.exitCriteriaMet] true and [verifier.verdict] equal to PASS
    (line 151 for the Builder, line 185 for the Verifier). *)
Definition completion_observed (e : Event) (w : World) : bool :=
  match e with
  | Persisted Builder None =>
      match bpc w with BPersistReport => complete (state w) | _ => false end
  | Persisted Verifier None =>
      match vpc w with VPersist => complete (state w) | _ => false end
  | _ => false
  end.

(** How many of its own events a loop can still see once the signal is
    aborted: what is left of the pass in flight, up to the loop condition. *)
Definition exit_distance (r : Role) (w : World) : nat :=
  match r with
  | Builder =>
      match bpc w with
      | BPersistStart => 3 | BPrompt => 2 | BPersistReport => 1
      | BDone | BRejected _ => 0
      end
  | Verifier =>
      match vpc w with
      | VPrompt => 3 | VPersist => 2 | VSleep _ _ => 1
      | VDone | VRejected _ => 0
      end
  | Refactorer =>
      match rpc w with
      | RPrompt => 2 | RPersist => 1 | RSleep _ _ => 1
      | RDone | RRejected _ => 0
      end
  end.

(** The events of a loop in a sequence of events. *)
Definition count_role (r : Role) (events : list Event) : nat :=
  length (filter (fun e => role_of e = Some r) events).

(** The prompts a role has issued. *)
Definition issued_by (r : Role) (w : World) : nat :=
  length (filter (fun x => x.1 = r) (issued w)).

(** The loop's promise is rejected with this error. *)
Definition loop_rejected (r : Role) (w : World) (err : Error) : Prop :=
  match r with
  | Builder => bpc w = BRejected err
  | Verifier => vpc w = VRejected err
  | Refactorer => rpc w = RRejected err
  end.

(** The role's own record is the same in both states. *)
Definition same_record (r : Role) (s s' : SharedState) : Prop :=
  match r with
  | Builder => builder s' = builder s
  | Verifier => verifier s' = verifier s
  | Refactorer => refactorer s' = refactorer s
  end.

(** The loop is suspended at an await: it has neither returned nor been
    rejected. *)
Definition verifier_alive (w : World) : bool :=
  match vpc w with VPrompt | VPersist | VSleep _ _ => true | _ => false end.

Definition refactorer_alive (w : World) : bool :=
  match rpc w with RSleep _ _ | RPrompt | RPersist => true | _ => false end.

(** *** A host for concrete runs

    [JSON.stringify] without indentation, for values whose strings hold no
    lone surrogate; the rendering of numbers is left to a parameter. *)

Definition hex_digit (n : N) : N :=
  if (n <? 10)%N then (48 + n)%N else (87 + n)%N.

Definition quote_unit (c : N) : jsstring :=
  if (c =? 8)%N then [92; 98]%N
  else if (c =? 9)%N then [92; 116]%N
  else if (c =? 10)%N then [92; 110]%N
  else if (c =? 12)%N then [92; 102]%N
  else if (c =? 13)%N then [92; 114]%N
  else if (c =? 34)%N then [92; 34]%N
  else if (c =? 92)%N then [92; 92]%N
  else if (c <? 32)%N then
    [92; 117; 48; 48; hex_digit (c / 16); hex_digit (c mod 16)]%N
  else [c].

Definition quote (s : jsstring) : jsstring :=
  (34%N :: flat_map quote_unit s) ++ [34%N].

Fixpoint stringify (number : float -> jsstring) (v : JSON) : jsstring :=
  match v with
  | JNull => lit "null"
  | JBool true => lit "true"
  | JBool false => lit "false"
  | JNumber x => number x
  | JString s => quote s
  | JArray items =>
      lit "[" ++ Path.join (lit ",") (map (stringify number) items) ++ lit "]"
  | JObject props =>
      lit "{"
      ++ Path.join (lit ",")
           (map (fun kv => quote kv.1 ++ lit ":" ++ stringify number kv.2) props)
      ++ lit "}"
  end.

(** [toLowerCase] on the ASCII letters; other code units are kept. *)
Definition ascii_lower (s : jsstring) : jsstring :=
  map (fun c => if (65 <=? c)%N && (c <=? 90)%N then (c + 32)%N else c) s.

(** A quoted word of a JSON text. *)
Definition q (s : string) : jsstring := (34%N :: lit s) ++ [34%N].

(** The reports used in the concrete runs, as JSON texts. *)
Definition builder_met : jsstring := lit "{" ++ q "exitCriteriaMet" ++ lit ":true}".
Definition builder_wants : jsstring := lit "{" ++ q "wantsRefactor" ++ lit ":true}".
Definition verifier_pass : jsstring :=
  lit "{" ++ q "verdict" ++ lit ":" ++ q "PASS" ++ lit "}".
Definition verifier_fail : jsstring :=
  lit "{" ++ q "verdict" ++ lit ":" ++ q "FAIL" ++ lit "}".
Definition verifier_duplication : jsstring :=
  lit "{" ++ q "verdict" ++ lit ":" ++ q "FAIL" ++ lit "," ++ q "blockers"
  ++ lit ":[{" ++ q "summary" ++ lit ":" ++ q "Duplication in the parser" ++ lit "}]}".

Definition sample_reports : list (jsstring * JSON) :=
  [(builder_met, JObject [(lit "exitCriteriaMet", JBool true)]);
   (builder_wants, JObject [(lit "wantsRefactor", JBool true)]);
   (verifier_pass, JObject [(lit "verdict", JString (lit "PASS"))]);
   (verifier_fail, JObject [(lit "verdict", JString (lit "FAIL"))]);
   (verifier_duplication,
    JObject [(lit "verdict", JString (lit "FAIL"));
             (lit "blockers",
              JArray [JObject [(lit "summary",
                                JString (lit "Duplication in the parser"))]])])].

(** The host of the concrete runs: it parses the reports above and takes
    every other text for a syntax error; the reports hold no number. *)
Definition sample_js : Js :=
  {| JSON_parse := table_parser sample_reports;
     JSON_stringify := stringify (fun _ => lit "0");
     toLowerCase := ascii_lower |}.

(** A response that ends with the report block the prompt asks for. *)
Definition reply (tag : string) (report : jsstring) : jsstring :=
  lit "Work done. " ++ start_marker (lit tag) ++ [10%N] ++ report ++ [10%N]
  ++ end_marker.

(** The defaults of the command line: 80 iterations, 90 seconds. *)
Definition default_opts : OrchestratorOpts := mkOpts 80 90.

Definition boom : Error := mkError (lit "Error") (lit "socket hang up").

(** The loops as [runOrchestrator] starts them at time 0. *)
Definition started : World :=
  mkWorld (with_iteration 1 (initial_state 0)) false false 0
          BPersistStart VPrompt (RSleep 1000 false)
          [(Verifier, with_iteration 1 (initial_state 0))].

(** The Builder has made its only pass, without a report, and has
    returned at the maximum of one iteration. *)
Definition stopped : World :=
  mkWorld (with_builder (mkBuilder (Some (JString (lit "Still working."))) false false)
                        (with_iteration 1 (initial_state 0)))
          false false 0 BDone VPrompt (RSleep 1000 false)
          [(Verifier, with_iteration 1 (initial_state 0));
           (Builder, with_iteration 1 (initial_state 0))].

(** Scenario A: the Verifier fails with a blocker that mentions
    duplication; the trigger is set. *)
Definition verifier_fails : list Event :=
  [Prompted Verifier (inl (reply "VERIFIER_REPORT_JSON" verifier_duplication));
   Persisted Verifier None].

(** The Verifier passes and sleeps, wakes and asks again; meanwhile the
    Builder reports its exit criteria met and raises the signal; then the
    Verifier's answer arrives, and it is FAIL. *)
Definition late_verifier : list Event :=
  [Prompted Verifier (inl (reply "VERIFIER_REPORT_JSON" verifier_pass));
   Persisted Verifier None;
   Tick 90000; Woken Verifier;
   Persisted Builder None;
   Prompted Builder (inl (reply "BUILDER_REPORT_JSON" builder_met));
   Persisted Builder None;
   Tick 5000;
   Prompted Verifier (inl (reply "VERIFIER_REPORT_JSON" verifier_fail))].

Lemma complete_comm s :
  (verdict_is s "PASS" && exitCriteriaMet (builder s)) = complete s.
Proof. unfold complete. apply andb_comm. Qed.

(** Case analysis on one turn of the event loop: the event, the loop's
    position and every test on the way. *)
Ltac split_tests :=
  repeat first
    [ progress simplify_eq/=
    | match goal with
      | |- context [match ?x with _ => _ end] => destruct x eqn:?
      | H : context [match ?x with _ => _ end] |- _ => destruct x eqn:?
      end ].

Ltac use_tests :=
  repeat match goal with
         | H : ?x = _ |- context [?x] => rewrite H
         end;
  rewrite ?orb_false_r, ?orb_true_r, ?andb_false_r, ?andb_true_r;
  simpl; try done; try lia.

Ltac step_cases H :=
  unfold step, refactorer_head, builder_invoke, builder_check, builder_head,
    builder_update, verifier_check, verifier_head, verifier_update,
    refactorer_update, do_abort, sleep in H;
  rewrite ?complete_comm in H;
  repeat match type of H with
         | context [exitCriteriaMet (builder ?s) && verdict_is ?s "PASS"] =>
             change (exitCriteriaMet (builder s) && verdict_is s "PASS")
               with (complete s) in H
         end;
  split_tests; try done.

Lemma issued_by_issue r r' w :
  issued_by r (issue r' w)
  = (issued_by r w + (if decide (r' = r) then 1 else 0))%nat.
Proof.
  unfold issued_by, issue. simpl. rewrite filter_app, length_app. f_equal.
  rewrite filter_cons. simpl. by destruct (decide (r' = r)).
Qed.

Ltac count_issued :=
  unfold issued_by, issue; simpl;
  rewrite ?filter_app, ?length_app, ?filter_cons, ?filter_nil; simpl;
  repeat case_decide; simplify_eq/=; try done; try lia.

Section LoopFacts.

Variable js : Js.
Variable opts : OrchestratorOpts.

(** [continue] is taken at most once in a row: the second time round the
    trigger is clear. *)
Lemma refactorer_loop_total fuel w :
  (2 <= fuel)%nat ->
  refactorer_loop fuel w = refactorer_head w /\ is_Some (refactorer_head w).
Proof.
  intros Hfuel. destruct fuel as [|[|fuel]]; [lia|lia|].
  unfold refactorer_head. simpl.
  destruct (aborted w) eqn:Ha; [eauto|].
  destruct (refactorTriggerRequested w) eqn:Ht; simpl; [|eauto].
  destruct (verdict_is (state w) "PASS"); [|eauto].
  destruct fuel; simpl; rewrite ?Ha; eauto.
Qed.

Lemma refactorer_head_aborted w :
  aborted w = true -> refactorer_head w = Some (set_rpc RDone w).
Proof. intros Ha. unfold refactorer_head. simpl. by rewrite Ha. Qed.

Lemma do_abort_aborted w : aborted (do_abort w) = true.
Proof. unfold do_abort. by destruct (aborted w) eqn:E. Qed.

Lemma do_abort_idempotent w : do_abort (do_abort w) = do_abort w.
Proof.
  unfold do_abort at 1. by rewrite do_abort_aborted.
Qed.

Lemma do_abort_state w : state (do_abort w) = state w.
Proof. unfold do_abort. by destruct (aborted w). Qed.

(** The loops as they are started: the signal is unset, the counter is
    one when a first pass is allowed and zero otherwise. *)
Lemma start_facts t0 now w0 :
  start opts t0 now = Some w0 ->
  aborted w0 = false /\
  iteration (state w0) = (if 0 <? maxIterations opts then 1 else 0) /\
  bpc w0 = (if 0 <? maxIterations opts then BPersistStart else BDone).
Proof.
  unfold start, refactorer_head, verifier_head, builder_head. simpl.
  destruct (0 <? maxIterations opts); simpl; by intros [= <-].
Qed.

(** The abort signal after one event. *)
Lemma step_aborted e w w' :
  step js opts e w = Some w' ->
  aborted w' = aborted w || completion_observed e w.
Proof.
  unfold completion_observed. intros Hstep.
  step_cases Hstep; use_tests.
Qed.

(** Once the signal is aborted, an event leaves the iteration counter
    alone and brings its loop strictly closer to its exit; no loop moves
    away from its exit. *)
Lemma step_after_abort e w w' :
  aborted w = true -> step js opts e w = Some w' ->
  iteration (state w') = iteration (state w) /\
  forall r, (exit_distance r w' + (if decide (role_of e = Some r) then 1 else 0)
             <= exit_distance r w)%nat.
Proof.
  intros Ha Hstep.
  step_cases Hstep; try (rewrite Ha in *; simpl in *; done);
    (split; [done|]); intros [| |]; simpl; use_tests.
Qed.

Lemma run_after_abort events : forall w w',
  aborted w = true -> run js opts events w = Some w' ->
  aborted w' = true /\
  iteration (state w') = iteration (state w) /\
  forall r, (exit_distance r w' + count_role r events <= exit_distance r w)%nat.
Proof.
  induction events as [|e events IH]; intros w w' Ha; simpl.
  - intros [= <-]. split; [done|]. split; [done|]. intros r.
    unfold count_role. simpl. lia.
  - destruct (step js opts e w) as [w1|] eqn:E; [|done]. intros Hrun.
    pose proof (step_aborted _ _ _ E) as Ha1. rewrite Ha in Ha1. simpl in Ha1.
    destruct (step_after_abort _ _ _ Ha E) as (Hit1 & Hd1).
    destruct (IH _ _ Ha1 Hrun) as (Ha' & Hit' & Hd').
    split; [done|]. split; [congruence|]. intros r.
    specialize (Hd1 r). specialize (Hd' r). unfold count_role in *.
    rewrite filter_cons. destruct (decide (role_of e = Some r)); simpl; lia.
Qed.

(** C2.  The loops start with the abort signal unset, and it becomes
    raised in exactly the events in which
    the Builder (line 151) or the Verifier (line 185) runs its completion
    check and finds [builder.exitCriteriaMet] true and [verifier.verdict]
    equal to PASS.  Raising it again changes nothing.  Once it is raised it
    stays raised, the iteration counter stays where it is, and each loop
    sees at most the events left of its pass in flight (at most three)
    before it is at its exit: at its loop condition every loop leaves. *)
Theorem termination_on_completion_only (w : World) :
  (forall t0 now w0, start opts t0 now = Some w0 -> aborted w0 = false) /\
  (forall e w', step js opts e w = Some w' ->
     aborted w' = aborted w || completion_observed e w) /\
  do_abort (do_abort w) = do_abort w /\
  (aborted w = true ->
     do_abort w = w /\
     bpc (builder_head opts w) = BDone /\
     vpc (verifier_head w) = VDone /\
     (rpc <$> refactorer_head w) = Some RDone /\
     forall events w', run js opts events w = Some w' ->
       aborted w' = true /\
       iteration (state w') = iteration (state w) /\
       forall r, (exit_distance r w' + count_role r events <= exit_distance r w)%nat
                 /\ (exit_distance r w <= 3)%nat).
Proof.
  split; [intros t0 now w0 H; by destruct (start_facts _ _ _ H)|].
  split; [intros e w'; apply step_aborted|].
  split; [apply do_abort_idempotent|].
  intros Ha. split; [unfold do_abort; by rewrite Ha|].
  split; [unfold builder_head; by rewrite Ha|].
  split; [unfold verifier_head; by rewrite Ha|].
  split; [by rewrite refactorer_head_aborted|].
  intros events w' Hrun.
  destruct (run_after_abort _ _ _ Ha Hrun) as (Ha' & Hit & Hd).
  split; [done|]. split; [done|]. intros r. split; [apply Hd|].
  destruct r; simpl; [destruct (bpc w)|destruct (vpc w)|destruct (rpc w)]; lia.
Qed.

(** Each record of the shared state has one writer: an event of another
    loop, or the passing of time, leaves it as it is. *)
Lemma step_single_writer e w w' r :
  step js opts e w = Some w' -> role_of e <> Some r ->
  same_record r (state w) (state w') /\
  startedAt (state w') = startedAt (state w) /\
  (r = Builder -> iteration (state w') = iteration (state w)).
Proof.
  intros Hstep Hr. step_cases Hstep; by destruct r.
Qed.

(** A rejected loop stays rejected: none of its events can happen again,
    it issues no prompt and its record stays as it is. *)
Lemma step_rejected r err e w w' :
  loop_rejected r w err -> step js opts e w = Some w' ->
  loop_rejected r w' err /\ role_of e <> Some r /\
  issued_by r w' = issued_by r w /\ same_record r (state w) (state w').
Proof.
  intros Hrej Hstep.
  assert (Hne : role_of e <> Some r).
  { intros He. destruct r; simpl in Hrej; step_cases Hstep. }
  destruct (step_single_writer _ _ _ r Hstep Hne) as (Hrec & _).
  split; [|split; [done|split; [|done]]].
  - destruct r; simpl in *; step_cases Hstep; congruence.
  - destruct r; simpl in *; step_cases Hstep; count_issued.
Qed.

Lemma run_rejected r err events : forall w w',
  loop_rejected r w err -> run js opts events w = Some w' ->
  loop_rejected r w' err /\ count_role r events = 0%nat /\
  issued_by r w' = issued_by r w /\ same_record r (state w) (state w').
Proof.
  induction events as [|e events IH]; intros w w' Hrej; simpl.
  - intros [= <-]. repeat split; try done. by destruct r.
  - destruct (step js opts e w) as [w1|] eqn:E; [|done]. intros Hrun.
    destruct (step_rejected _ _ _ _ _ Hrej E) as (Hrej1 & Hne & Hiss1 & Hrec1).
    destruct (IH _ _ Hrej1 Hrun) as (Hrej' & Hcnt & Hiss' & Hrec').
    split; [done|]. split; [|split; [congruence|]].
    + unfold count_role in *. rewrite filter_cons.
      by destruct (decide (role_of e = Some r)).
    + destruct r; simpl in *; congruence.
Qed.

(** C3, as the code has it.  When [client.prompt] fails in a loop, nothing
    of the shared state changes (the role's record, its [lastReport]
    included, stays as it was), the abort signal and the trigger stay as
    they were, the other two loops are where they were, and the loop's
    promise is rejected with the error: there is no [catch] around the
    call.  From then on no event of that loop ever
    happens: it issues no further prompt and its record never changes
    again. *)
Theorem prompt_failure_rejects_loop r err w w' :
  step js opts (Prompted r (inr err)) w = Some w' ->
  state w' = state w /\
  aborted w' = aborted w /\
  refactorTriggerRequested w' = refactorTriggerRequested w /\
  issued w' = issued w /\
  loop_rejected r w' err /\
  (r <> Builder -> bpc w' = bpc w) /\
  (r <> Verifier -> vpc w' = vpc w) /\
  (r <> Refactorer -> rpc w' = rpc w) /\
  forall events w'', run js opts events w' = Some w'' ->
    loop_rejected r w'' err /\
    count_role r events = 0%nat /\
    issued_by r w'' = issued_by r w /\
    same_record r (state w) (state w'').
Proof.
  intros Hstep.
  assert (H : state w' = state w /\ aborted w' = aborted w /\
              refactorTriggerRequested w' = refactorTriggerRequested w /\
              issued w' = issued w /\ loop_rejected r w' err /\
              (r <> Builder -> bpc w' = bpc w) /\
              (r <> Verifier -> vpc w' = vpc w) /\
              (r <> Refactorer -> rpc w' = rpc w)).
  { destruct r; step_cases Hstep. }
  destruct H as (Hs & Ha & Ht & Hi & Hrej & Hb & Hv & Hr).
  repeat (split; [done|]).
  intros events w'' Hrun.
  destruct (run_rejected _ _ _ _ _ Hrej Hrun) as (Hrej' & Hcnt & Hiss & Hrec).
  split; [done|]. split; [done|]. split.
  - rewrite Hiss. unfold issued_by. by rewrite Hi.
  - by rewrite <- Hs.
Qed.

End LoopFacts.

Section MoreLoopFacts.

Variable js : Js.
Variable opts : OrchestratorOpts.

Lemma step_clock e w w' : step js opts e w = Some w' -> clock w <= clock w'.
Proof. intros Hstep. step_cases Hstep; lia. Qed.

Lemma run_clock events : forall w w',
  run js opts events w = Some w' -> clock w <= clock w'.
Proof.
  induction events as [|e events IH]; intros w w'; simpl.
  - intros [= <-]. lia.
  - destruct (step js opts e w) as [w1|] eqn:E; [|done]. intros Hrun.
    pose proof (step_clock _ _ _ E). pose proof (IH _ _ Hrun). lia.
Qed.

(** While the Refactorer waits for its prompt, the other loops leave its
    position, its record and its count of prompts alone. *)
Lemma run_keeps_prompt events : forall w w',
  rpc w = RPrompt -> count_role Refactorer events = 0%nat ->
  run js opts events w = Some w' ->
  rpc w' = RPrompt /\ refactorer (state w') = refactorer (state w) /\
  issued_by Refactorer w' = issued_by Refactorer w.
Proof.
  induction events as [|e events IH]; intros w w' Hpc Hcnt; simpl.
  - by intros [= <-].
  - destruct (step js opts e w) as [w1|] eqn:E; [|done]. intros Hrun.
    unfold count_role in Hcnt. rewrite filter_cons in Hcnt.
    destruct (decide (role_of e = Some Refactorer)) as [|Hne]; [done|].
    assert (H1 : rpc w1 = RPrompt /\ refactorer (state w1) = refactorer (state w)
                 /\ issued_by Refactorer w1 = issued_by Refactorer w).
    { clear Hrun IH. step_cases E; count_issued. }
    destruct H1 as (Hpc1 & Hrec1 & Hiss1).
    destruct (IH _ _ Hpc1 Hcnt Hrun) as (? & ? & ?).
    split; [done|]. split; congruence.
Qed.

(** C4.  When the Refactorer loop is at its loop condition with the
    trigger set (and the signal not aborted), it clears the trigger.  If
    the verdict is PASS at that moment it goes back to waiting: no prompt
    is issued and the state, [ranCount] and [lastRanAt] included, is as it
    was.  Otherwise it issues exactly one prompt; until that prompt
    settles nothing else touches the [refactorer] record; and when the
    response arrives only the [refactorer] record changes: [ranCount] is
    one more and [lastRanAt] is the time of the update. *)
Theorem refactorer_consumes_trigger w :
  aborted w = false -> refactorTriggerRequested w = true ->
  exists w1,
    refactorer_head w = Some w1 /\
    refactorTriggerRequested w1 = false /\
    state w1 = state w /\
    (verdict_is (state w) "PASS" = true ->
       rpc w1 = RSleep (clock w + 1000) false /\ issued w1 = issued w) /\
    (verdict_is (state w) "PASS" = false ->
       rpc w1 = RPrompt /\
       issued w1 = issued w ++ [(Refactorer, state w)] /\
       forall events w2 response,
         run js opts events w1 = Some w2 ->
         count_role Refactorer events = 0%nat ->
         issued_by Refactorer w2 = S (issued_by Refactorer w) /\
         refactorer (state w2) = refactorer (state w) /\
         exists w3,
           step js opts (Prompted Refactorer (inl response)) w2 = Some w3 /\
           rpc w3 = RPersist /\
           ranCount (refactorer (state w3)) = ranCount (refactorer (state w)) + 1 /\
           lastRanAt (refactorer (state w3)) = Some (clock w2) /\
           builder (state w3) = builder (state w2) /\
           verifier (state w3) = verifier (state w2) /\
           iteration (state w3) = iteration (state w2) /\
           startedAt (state w3) = startedAt (state w2) /\
           issued w3 = issued w2 /\
           aborted w3 = aborted w2 /\
           refactorTriggerRequested w3 = refactorTriggerRequested w2).
Proof.
  intros Ha Ht. unfold refactorer_head. simpl. rewrite Ha, Ht. simpl.
  destruct (verdict_is (state w) "PASS") eqn:Ev.
  - eexists. split; [done|]. simpl.
    split; [done|]. split; [done|]. split; [|done]. intros _. done.
  - eexists. split; [done|]. simpl.
    split; [done|]. split; [done|]. split; [done|]. intros _.
    split; [done|]. split; [done|].
    intros events w2 response Hrun Hcnt.
    destruct (run_keeps_prompt events
                (set_rpc RPrompt (issue Refactorer (set_trigger false w))) w2
                eq_refl Hcnt Hrun) as (Hpc & Hrec & Hiss).
    split; [rewrite Hiss; count_issued|]. split; [done|].
    unfold step. rewrite Hpc. eexists. split; [done|].
    unfold refactorer_update. simpl. by rewrite Hrec.
Qed.

(** The Builder loop, once it has returned, stays so: the iteration
    counter, the [builder] record and its count of prompts are final. *)
Lemma run_builder_done events : forall w w',
  bpc w = BDone -> run js opts events w = Some w' ->
  bpc w' = BDone /\ iteration (state w') = iteration (state w) /\
  builder (state w') = builder (state w) /\
  issued_by Builder w' = issued_by Builder w.
Proof.
  induction events as [|e events IH]; intros w w' Hpc; simpl.
  - by intros [= <-].
  - destruct (step js opts e w) as [w1|] eqn:E; [|done]. intros Hrun.
    assert (H1 : bpc w1 = BDone /\ iteration (state w1) = iteration (state w) /\
                 builder (state w1) = builder (state w) /\
                 issued_by Builder w1 = issued_by Builder w).
    { clear Hrun IH. step_cases E; count_issued. }
    destruct H1 as (Hpc1 & H1 & H2 & H3).
    destruct (IH _ _ Hpc1 Hrun) as (? & ? & ? & ?).
    split; [done|]. repeat split; congruence.
Qed.

(** With the Builder loop gone and the exit criteria unmet, the signal is
    never raised and the other two loops carry on, unless they fail. *)
Lemma run_without_builder events : forall w w',
  bpc w = BDone -> exitCriteriaMet (builder (state w)) = false ->
  aborted w = false -> verifier_alive w = true -> refactorer_alive w = true ->
  forallb (fun e => negb (is_failure e)) events = true ->
  run js opts events w = Some w' ->
  aborted w' = false /\ verifier_alive w' = true /\ refactorer_alive w' = true /\
  finished w' = false.
Proof.
  induction events as [|e events IH]; intros w w' Hb Hx Ha Hv Hr Hok; simpl.
  - intros [= <-]. repeat split; try done.
    unfold finished, verifier_alive in *. rewrite Hb. by destruct (vpc w).
  - destruct (step js opts e w) as [w1|] eqn:E; [|done]. intros Hrun.
    simpl in Hok. apply andb_true_iff in Hok as (Hok1 & Hok).
    assert (H1 : bpc w1 = BDone /\ exitCriteriaMet (builder (state w1)) = false /\
                 aborted w1 = false /\ verifier_alive w1 = true /\
                 refactorer_alive w1 = true).
    { clear Hrun IH. unfold verifier_alive, refactorer_alive in *.
      step_cases E; unfold complete in *; rewrite ?Hx, ?Ha in *; simpl in *;
        try done; use_tests. }
    destruct H1 as (Hb1 & Hx1 & Ha1 & Hv1 & Hr1).
    by apply (IH _ _ Hb1 Hx1 Ha1 Hv1 Hr1 Hok).
Qed.

End MoreLoopFacts.

Section CounterAndSleep.

Variable js : Js.
Variable opts : OrchestratorOpts.

(** The iteration counter over one event. *)
Lemma step_iteration e w w' :
  step js opts e w = Some w' ->
  iteration (state w) <= iteration (state w') /\
  (iteration (state w') <> iteration (state w) ->
     e = Persisted Builder None /\ bpc w = BPersistReport /\
     bpc w' = BPersistStart /\
     iteration (state w') = iteration (state w) + 1) /\
  (bpc w' = BPersistStart -> bpc w <> BPersistStart ->
     e = Persisted Builder None /\
     iteration (state w') = iteration (state w) + 1 /\
     iteration (state w) < maxIterations opts).
Proof.
  intros Hstep. step_cases Hstep; (split; [lia|]); (split; [lia || done|]);
    try done; try congruence.
  all: intros _ _; repeat split; try done;
    match goal with
    | H : _ && (_ <? _) = true |- _ => apply andb_true_iff in H as (_ & H); lia
    end.
Qed.

(** C5, as the code has it.  The iteration counter never decreases; it
    changes only when the Builder loop passes its loop condition and
    starts a pass (when the loops are started, and later in the event that
    ends the pass before), and then by exactly one; every pass starts that
    way.  Once the counter has reached the maximum the loop
    condition fails and the Builder loop returns without touching the
    abort signal; from then on the counter and the Builder's count of
    prompts are final.  That alone does not end the run: with the exit
    criteria unmet, and as long as no prompt and no write fails, the
    signal is never raised and the Verifier and the Refactorer loops keep
    going. *)
Theorem iteration_counts_builder_passes (w : World) :
  (forall t0 now w0, start opts t0 now = Some w0 ->
     iteration (state w0) = (if 0 <? maxIterations opts then 1 else 0) /\
     bpc w0 = (if 0 <? maxIterations opts then BPersistStart else BDone)) /\
  (forall e w', step js opts e w = Some w' ->
     iteration (state w) <= iteration (state w') /\
     (iteration (state w') <> iteration (state w) ->
        e = Persisted Builder None /\ bpc w = BPersistReport /\
        bpc w' = BPersistStart /\
        iteration (state w') = iteration (state w) + 1) /\
     (bpc w' = BPersistStart -> bpc w <> BPersistStart ->
        e = Persisted Builder None /\
        iteration (state w') = iteration (state w) + 1 /\
        iteration (state w) < maxIterations opts)) /\
  (maxIterations opts <= iteration (state w) ->
     builder_head opts w = set_bpc BDone w /\
     aborted (builder_head opts w) = aborted w) /\
  (bpc w = BDone ->
     forall events w', run js opts events w = Some w' ->
       bpc w' = BDone /\
       iteration (state w') = iteration (state w) /\
       issued_by Builder w' = issued_by Builder w /\
       (exitCriteriaMet (builder (state w)) = false -> aborted w = false ->
        verifier_alive w = true -> refactorer_alive w = true ->
        forallb (fun e => negb (is_failure e)) events = true ->
        aborted w' = false /\ finished w' = false)).
Proof.
  split; [intros t0 now w0 H; by destruct (start_facts opts _ _ _ H) as (_ & ? & ?)|].
  split; [intros e w'; apply step_iteration|]. split.
  - intros Hmax. unfold builder_head.
    destruct (Z.ltb_spec (iteration (state w)) (maxIterations opts)); [lia|].
    by rewrite andb_false_r.
  - intros Hb events w' Hrun.
    destruct (run_builder_done js opts _ _ _ Hb Hrun) as (Hb' & Hit & _ & Hiss).
    repeat (split; [done|]).
    intros Hx Ha Hv Hr Hok.
    destruct (run_without_builder js opts _ _ _ Hb Hx Ha Hv Hr Hok Hrun)
      as (? & _ & _ & ?).
    done.
Qed.

(** A sleep that the abort signal has not resolved keeps its loop asleep
    until the timer's deadline, however often the signal is raised again. *)
Lemma run_asleep_after_abort d events : forall w w',
  aborted w = true -> vpc w = VSleep d false ->
  run js opts events w = Some w' -> clock w' < d ->
  vpc w' = VSleep d false.
Proof.
  induction events as [|e events IH]; intros w w' Ha Hpc; simpl.
  - by intros [= <-].
  - destruct (step js opts e w) as [w1|] eqn:E; [|done]. intros Hrun Hclock.
    pose proof (run_clock js opts _ _ _ Hrun) as Hmono.
    pose proof (step_clock js opts _ _ _ E) as Hmono1.
    pose proof (step_aborted js opts _ _ _ E) as Ha1. rewrite Ha in Ha1.
    simpl in Ha1.
    assert (Hpc1 : vpc w1 = VSleep d false).
    { clear IH Hrun. step_cases E; try congruence.
      all: match goal with
           | H : (_ <=? _) = true |- _ => apply Z.leb_le in H; lia
           end. }
    by apply (IH _ _ Ha1 Hpc1 Hrun).
Qed.

(** C9.  When the Verifier's pass comes to its end after the signal was
    raised, and its own completion check does not hold, it starts the
    sleep of the configured interval with the signal already aborted: the
    abort listener never fires for this sleep, so the loop is still asleep,
    and has not left, at every moment before the timer's deadline. *)
Theorem sleep_after_abort_runs_full_timer (w : World) :
  aborted w = true -> vpc w = VPersist -> complete (state w) = false ->
  exists w1,
    step js opts (Persisted Verifier None) w = Some w1 /\
    aborted w1 = true /\
    vpc w1 = VSleep (clock w + timer_delay (verifierIntervalSec opts * 1000)) false /\
    forall events w2,
      run js opts events w1 = Some w2 ->
      clock w2 < clock w + timer_delay (verifierIntervalSec opts * 1000) ->
      vpc w2 = vpc w1 /\ exit_distance Verifier w2 = 1%nat.
Proof.
  intros Ha Hpc Hc. unfold step. rewrite Hpc. unfold verifier_check.
  rewrite complete_comm, Hc. eexists. split; [done|].
  assert (Hsame : forall b : bool,
            aborted (if b then set_trigger true w else w) = true /\
            clock (if b then set_trigger true w else w) = clock w).
  { by intros []. }
  destruct (Hsame (refactor_wanted (state w))) as (Ha1 & Hcl1).
  unfold sleep. simpl. rewrite Hcl1.
  split; [done|]. split; [done|].
  intros events w2 Hrun Hclock.
  assert (Hv2 : vpc w2
                = VSleep (clock w + timer_delay (verifierIntervalSec opts * 1000))
                         false).
  { apply (run_asleep_after_abort _ events
             (set_vpc (VSleep (clock w + timer_delay (verifierIntervalSec opts * 1000))
                              false)
                      (if refactor_wanted (state w) then set_trigger true w else w))
             w2); done. }
  split; [done|]. simpl. by rewrite Hv2.
Qed.

(** For contrast: a sleep that is pending when the signal is raised is
    resolved by the listener and its loop can continue at once. *)
Lemma sleep_before_abort_is_woken d b (w : World) :
  aborted w = false -> vpc w = VSleep d b ->
  vpc (do_abort w) = VSleep d true /\
  step js opts (Woken Verifier) (do_abort w)
    = Some (set_vpc VDone (do_abort w)).
Proof.
  intros Ha Hpc. unfold step, do_abort. rewrite Ha, Hpc. simpl.
  split; [done|]. unfold verifier_head. simpl. done.
Qed.

End CounterAndSleep.

Example start_default : start default_opts 0 0 = Some started.
Proof. reflexivity. Qed.

(** C3 as stated fails here: the Builder's first prompt fails; the loop's
    promise is rejected with the error, and no event of the Builder loop
    can happen any more, so the pass is never retried. *)
Lemma builder_prompt_failure_is_final :
  exists w,
    (forall js, run js default_opts
                  [Persisted Builder None; Prompted Builder (inr boom)] started
                = Some w) /\
    bpc w = BRejected boom /\
    issued_by Builder w = 1%nat /\
    (forall js e, role_of e = Some Builder -> step js default_opts e w = None) /\
    (forall js events w', run js default_opts events w = Some w' ->
       bpc w' = BRejected boom /\ issued_by Builder w' = 1%nat).
Proof.
  eexists. split; [intros js; reflexivity|]. split; [reflexivity|].
  split; [reflexivity|]. split.
  - intros js [dt|[| |] [err|]|[| |] [response|err]|[| |]]; try done.
  - intros js events w' Hrun.
    assert (Hrej0 : loop_rejected Builder
                      (set_bpc (BRejected boom) (builder_invoke started)) boom)
      by reflexivity.
    destruct (run_rejected js default_opts Builder boom events _ _ Hrej0 Hrun)
      as (Hrej & _ & Hiss & _).
    split; [done|]. by rewrite Hiss.
Qed.

(** The same at the Builder's first prompt, in full. *)
Lemma prompt_failure_rejects_loop_witness :
  exists w',
    step sample_js default_opts (Prompted Builder (inr boom))
         (builder_invoke started) = Some w' /\
    state w' = state (builder_invoke started) /\
    aborted w' = aborted (builder_invoke started) /\
    refactorTriggerRequested w' = refactorTriggerRequested (builder_invoke started) /\
    issued w' = issued (builder_invoke started) /\
    loop_rejected Builder w' boom /\
    (Builder <> Builder -> bpc w' = bpc (builder_invoke started)) /\
    (Builder <> Verifier -> vpc w' = vpc (builder_invoke started)) /\
    (Builder <> Refactorer -> rpc w' = rpc (builder_invoke started)) /\
    forall events w'', run sample_js default_opts events w' = Some w'' ->
      loop_rejected Builder w'' boom /\
      count_role Builder events = 0%nat /\
      issued_by Builder w'' = issued_by Builder (builder_invoke started) /\
      same_record Builder (state (builder_invoke started)) (state w'').
Proof.
  eexists. split; [reflexivity|].
  apply (prompt_failure_rejects_loop sample_js default_opts Builder boom
           (builder_invoke started)).
  reflexivity.
Defined.

Example start_one_iteration : start (mkOpts 1 90) 0 0 = Some started.
Proof. reflexivity. Qed.

(** C5 as stated fails here: with a maximum of one iteration the Builder
    makes its single pass (its response carries no report), finds the
    counter at the maximum and returns, the signal unset.  The run does
    not end then: as long as no prompt and no write fails, [allSettled]
    never resolves, so nothing is ever reported. *)
Lemma max_iterations_does_not_end_run :
  (forall js, run js (mkOpts 1 90)
                [Persisted Builder None;
                 Prompted Builder (inl (lit "Still working."));
                 Persisted Builder None] started
              = Some stopped) /\
  iteration (state stopped) = maxIterations (mkOpts 1 90) /\
  bpc stopped = BDone /\
  aborted stopped = false /\
  (forall js events w',
     forallb (fun e => negb (is_failure e)) events = true ->
     run js (mkOpts 1 90) events stopped = Some w' ->
     finished w' = false /\ aborted w' = false).
Proof.
  split; [intros js; reflexivity|].
  split; [reflexivity|]. split; [reflexivity|]. split; [reflexivity|].
  intros js events w' Hok Hrun.
  destruct (run_without_builder js (mkOpts 1 90) events stopped w'
              eq_refl eq_refl eq_refl eq_refl eq_refl Hok Hrun) as (? & _ & _ & ?).
  done.
Qed.

(** Scenario A up to the moment the Refactorer takes the trigger: the
    Verifier has failed with a blocker that mentions duplication. *)
Lemma refactorer_consumes_trigger_witness :
  exists w w1,
    run sample_js default_opts verifier_fails started = Some w /\
    refactorTriggerRequested w = true /\
    refactorer_head w = Some w1 /\
    refactorTriggerRequested w1 = false /\
    rpc w1 = RPrompt /\
    issued_by Refactorer w1 = 1%nat.
Proof.
  assert (Hrun : exists w,
             run sample_js default_opts verifier_fails started = Some w /\
             aborted w = false /\ refactorTriggerRequested w = true /\
             verdict_is (state w) "PASS" = false /\
             issued_by Refactorer w = 0%nat).
  { eexists. split; [vm_compute; reflexivity|]. repeat split. }
  destruct Hrun as (w & Hrun & Ha & Ht & Hv & Hn).
  destruct (refactorer_consumes_trigger sample_js default_opts w Ha Ht)
    as (w1 & H1 & H2 & _ & _ & H3).
  destruct (H3 Hv) as (Hpc & Hiss & _).
  exists w, w1. repeat (split; [assumption|]).
  revert Hn. unfold issued_by. rewrite Hiss, filter_app, length_app.
  intros ->. reflexivity.
Defined.

(** Scenario A in full: the Refactorer's next poll takes the trigger and
    the Refactorer runs once. *)
Example scenario_a :
  exists w,
    run sample_js default_opts
      (verifier_fails ++
       [Tick 1000; Woken Refactorer;
        Prompted Refactorer (inl (lit "Extracted the shared parser."));
        Persisted Refactorer None; Tick 1000; Woken Refactorer]) started
    = Some w /\
    ranCount (refactorer (state w)) = 1 /\
    lastRanAt (refactorer (state w)) = Some 1000 /\
    issued_by Refactorer w = 1%nat /\
    refactorTriggerRequested w = false.
Proof. eexists. split; [vm_compute; reflexivity|]. repeat split. Qed.

(** Scenario B: the Verifier passes, then the Builder reports its exit
    criteria met; the signal is raised and all three loops leave. *)
Example scenario_b :
  exists w,
    run sample_js default_opts
      [Prompted Verifier (inl (reply "VERIFIER_REPORT_JSON" verifier_pass));
       Persisted Verifier None;
       Persisted Builder None;
       Prompted Builder (inl (reply "BUILDER_REPORT_JSON" builder_met));
       Persisted Builder None;
       Woken Verifier; Woken Refactorer] started
    = Some w /\
    aborted w = true /\ finished w = true /\ iteration (state w) = 1 /\
    bpc w = BDone /\ vpc w = VDone /\ rpc w = RDone.
Proof. eexists. split; [vm_compute; reflexivity|]. repeat split. Qed.

(** Scenario C: the verdict is PASS when a Builder request sets the
    trigger; the Refactorer consumes it and does not run. *)
Example scenario_c :
  exists w,
    run sample_js default_opts
      [Prompted Verifier (inl (reply "VERIFIER_REPORT_JSON" verifier_pass));
       Persisted Verifier None;
       Persisted Builder None;
       Prompted Builder (inl (reply "BUILDER_REPORT_JSON" builder_wants));
       Tick 1000; Woken Refactorer] started
    = Some w /\
    refactorTriggerRequested w = false /\
    ranCount (refactorer (state w)) = 0 /\
    issued_by Refactorer w = 0%nat /\
    rpc w = RSleep 2000 false.
Proof. eexists. split; [vm_compute; reflexivity|]. repeat split. Qed.

(** The signal is raised at 90 s; the Verifier's answer arrives at 95 s
    and the Verifier then sleeps until 185 s. *)
Lemma sleep_after_abort_runs_full_timer_witness :
  exists w w1,
    run sample_js default_opts late_verifier started = Some w /\
    aborted w = true /\ clock w = 95000 /\
    step sample_js default_opts (Persisted Verifier None) w = Some w1 /\
    vpc w1 = VSleep 185000 false /\
    forall events w2,
      run sample_js default_opts events w1 = Some w2 ->
      clock w2 < 185000 -> vpc w2 = vpc w1 /\ exit_distance Verifier w2 = 1%nat.
Proof.
  assert (Hrun : exists w,
             run sample_js default_opts late_verifier started = Some w /\
             aborted w = true /\ vpc w = VPersist /\
             complete (state w) = false /\ clock w = 95000).
  { eexists. split; [vm_compute; reflexivity|]. repeat split. }
  destruct Hrun as (w & Hrun & Ha & Hpc & Hc & Hclock).
  destruct (sleep_after_abort_runs_full_timer sample_js default_opts w Ha Hpc Hc)
    as (w1 & H1 & _ & H2 & H3).
  rewrite Hclock in H2, H3.
  exists w, w1. repeat (split; [assumption|]). exact H3.
Defined.

End Orchestrator.

(** * Further properties of the code *)

(** ** The report extractor: when it answers [undefined], and what it
    never reads *)

Module ExtractMore.
Import JsString Json Extract.

(** An occurrence that lies within the text is the same occurrence in
    every extension of the text. *)
Lemma occurs_at_app needle text suffix k :
  (k + length needle <= length text)%nat ->
  occurs_at needle (text ++ suffix) k <-> occurs_at needle text k.
Proof.
  intros Hk. unfold occurs_at.
  rewrite drop_app_le by lia. rewrite take_app_le; [done|].
  rewrite length_drop. lia.
Qed.

Lemma first_occurrence_app needle text suffix from k :
  needle <> [] ->
  first_occurrence needle text from k ->
  first_occurrence needle (text ++ suffix) from k.
Proof.
  intros Hne (Hfrom & Hocc & Hmin).
  pose proof (occurs_at_length _ _ _ Hne Hocc) as Hlen.
  split; [done|]. split.
  - by apply occurs_at_app.
  - intros k' H1 H2 Hk'. apply (Hmin k' H1 H2).
    apply (occurs_at_app needle text suffix k'); [lia|done].
Qed.

Lemma between_app text suffix x y :
  (y <= length text)%nat -> between (text ++ suffix) x y = between text x y.
Proof.
  intros Hy. unfold between.
  destruct (decide (x <= length text)%nat) as [Hx|Hx].
  - rewrite drop_app_le by done. rewrite take_app_le; [done|].
    rewrite length_drop. lia.
  - replace (y - x)%nat with 0%nat by lia. by rewrite !take_0.
Qed.

(** X1.  The extractor answers [undefined] exactly when no start marker of the
    tag is followed by an end marker; in particular an end marker that
    only comes before the start marker does not count. *)
Theorem extract_undefined_iff JSON_parse text tag :
  extractTaggedJson JSON_parse text tag = None <->
  ~ exists a b : nat,
      occurs_at (start_marker tag) text a /\
      occurs_at end_marker text b /\
      (a + length (start_marker tag) <= b)%nat.
Proof.
  split.
  - intros Hnone (a & b & Ha & Hb & Hab).
    destruct (markers_found text tag a b Ha Hb Hab) as (i & j & _ & _ & Hi & Hj & _).
    rewrite (extract_found JSON_parse text tag i j Hi Hj) in Hnone.
    by destruct (JSON_parse _).
  - intros Hno. unfold extractTaggedJson.
    destruct (Z.ltb_spec (indexOf text (start_marker tag) 0) 0) as [|Hpos]; [done|].
    pose proof (indexOf_found text _ 0%nat _ ltac:(lia) eq_refl Hpos) as (_ & Hocc & _).
    pose proof (occurs_at_length _ _ _ (start_marker_nonempty tag) Hocc) as Hlen.
    set (i := indexOf text (start_marker tag) 0) in *.
    replace (i + Z.of_nat (length (start_marker tag)))
      with (Z.of_nat (Z.to_nat i + length (start_marker tag))) by lia.
    destruct (Z.ltb_spec (indexOf text end_marker
                (Z.of_nat (Z.to_nat i + length (start_marker tag)))) 0) as [|Hpos'];
      [done|].
    pose proof (indexOf_found text _ _ _ Hlen eq_refl Hpos') as (Hle & Hocc' & _).
    destruct Hno. eauto.
Qed.

(** X2.  Whatever follows the first end marker after the start marker (more
    text, a second block, further end markers) has no influence on the
    result. *)
Theorem extract_ignores_text_after_block JSON_parse text tag suffix (a b : nat) :
  occurs_at (start_marker tag) text a ->
  occurs_at end_marker text b ->
  (a + length (start_marker tag) <= b)%nat ->
  extractTaggedJson JSON_parse (text ++ suffix) tag
  = extractTaggedJson JSON_parse text tag.
Proof.
  intros Ha Hb Hab.
  destruct (markers_found text tag a b Ha Hb Hab) as (i & j & _ & _ & Hi & Hj & Hjlen).
  rewrite (extract_found JSON_parse text tag i j Hi Hj).
  rewrite (extract_found JSON_parse (text ++ suffix) tag i j).
  - by rewrite between_app.
  - apply first_occurrence_app; [apply start_marker_nonempty|done].
  - apply first_occurrence_app; [discriminate|done].
Qed.

(** A second block after the first one is not read. *)
Lemma extract_ignores_text_after_block_witness :
  extractTaggedJson sample_parser
    (sample_response ++ lit " <<<T>>> [] <<<END>>>") (lit "T")
  = extractTaggedJson sample_parser sample_response (lit "T").
Proof.
  apply (extract_ignores_text_after_block sample_parser sample_response (lit "T")
           (lit " <<<T>>> [] <<<END>>>") 10 21).
  - reflexivity.
  - reflexivity.
  - simpl; lia.
Defined.

End ExtractMore.

(** ** The workspace tools: commands, line edits, parent directories *)

Module ToolsMore.
Import JsString Json Extract Path Tools.

(** *** [split] and [join] *)

Lemma split_on_nonempty sep s : split_on sep s <> [].
Proof.
  destruct s as [|c s]; simpl; [done|].
  destruct (N.eqb c sep); [done|]. by destruct (split_on sep s).
Qed.

(** Joining what [split] gives is the string again. *)
Lemma join_split sep s : join [sep] (split_on sep s) = s.
Proof.
  induction s as [|c s IH]; simpl; [done|].
  destruct (N.eqb_spec c sep) as [->|Hne].
  - pose proof (split_on_nonempty sep s).
    destruct (split_on sep s) as [|seg segs] eqn:E; [done|].
    simpl. by rewrite <- IH.
  - destruct (split_on sep s) as [|seg segs] eqn:E.
    + by destruct (split_on_nonempty sep s).
    + rewrite <- IH. simpl. by destruct segs.
Qed.

Lemma split_on_clean sep seg : sep ∉ seg -> split_on sep seg = [seg].
Proof.
  induction seg as [|c seg IH]; simpl; [done|].
  intros Hnot. destruct (N.eqb_spec c sep) as [->|Hne].
  - destruct Hnot. by left.
  - rewrite IH; [done|]. intros H. apply Hnot. by right.
Qed.

Lemma split_on_app_sep sep x y :
  split_on sep (x ++ sep :: y) = split_on sep x ++ split_on sep y.
Proof.
  induction x as [|c x IH]; simpl.
  - by rewrite N.eqb_refl.
  - destruct (N.eqb c sep); [by rewrite IH|].
    rewrite IH. pose proof (split_on_nonempty sep x).
    by destruct (split_on sep x).
Qed.

(** Splitting a join of separator-free segments gives the segments. *)
Lemma split_join sep segs :
  segs <> [] -> Forall (fun seg => sep ∉ seg) segs ->
  split_on sep (join [sep] segs) = segs.
Proof.
  induction segs as [|seg segs IH]; [done|].
  intros _ Hclean. apply Forall_cons in Hclean as (Hseg & Hclean).
  destruct segs as [|seg' segs].
  - simpl. by apply split_on_clean.
  - change (join [sep] (seg :: seg' :: segs))
      with (seg ++ sep :: join [sep] (seg' :: segs)).
    rewrite split_on_app_sep, IH by done. by rewrite split_on_clean.
Qed.

(** *** The line edits of [fs_apply_edits] *)

Definition edit (a b : nat) (repl : jsstring) : Edit :=
  {| startLine := Z.of_nat a; endLine := Z.of_nat b; replacement := repl |}.

(** A text of three lines and two edits of it. *)
Definition three_lines : list jsstring := [lit "one"; lit "two"; lit "three"].

(** A host that records what it is asked to do and always succeeds. *)
Inductive HostCall : Type :=
| ReadFile (p : jsstring)
| WriteFile (p text : jsstring)
| Mkdir (p : jsstring)
| Rm (p : jsstring)
| StatOf (p : jsstring)
| Glob (pattern cwd : jsstring)
| Exec (cmd cwd : jsstring).

Definition recording_host : Host (list HostCall) :=
  {| readFile := fun p w => (w ++ [ReadFile p], inl []);
     readFile_utf8 := fun p w => (w ++ [ReadFile p], inl []);
     writeFile := fun p text w => (w ++ [WriteFile p text], inl ());
     mkdir := fun p w => (w ++ [Mkdir p], inl ());
     rm := fun p w => (w ++ [Rm p], inl ());
     stat := fun p w => (w ++ [StatOf p], inl (mkStat true false 0 0));
     fg := fun pattern cwd _ w => (w ++ [Glob pattern cwd], inl []);
     execa := fun cmd cwd _ w => (w ++ [Exec cmd cwd], inl (0, [], []));
     utf8 := fun bytes => bytes |}.

(** The pieces a normalised path is made of: not empty, not ["."], not
    [".."], without a slash. *)
Definition clean (seg : jsstring) : Prop :=
  seg <> [] /\ seg <> [dot] /\ seg <> [dot; dot] /\ slash ∉ seg.

(** One segment on the stack of [normalize_onto]. *)
Definition push (stack : list jsstring) (seg : jsstring) : list jsstring :=
  if bool_decide (seg = []) || bool_decide (seg = [dot]) then stack
  else if bool_decide (seg = [dot; dot]) then tail stack
  else seg :: stack.

(** [splice] at a start that is not negative. *)
Lemma splice_from lines start count items :
  0 <= start ->
  splice lines start count items
  = take (Z.to_nat (Z.min start (Z.of_nat (length lines)))) lines
    ++ items
    ++ drop (Z.to_nat (Z.min start (Z.of_nat (length lines)))
             + Z.to_nat (Z.min (Z.max count 0)
                           (Z.of_nat (length lines)
                            - Z.min start (Z.of_nat (length lines))))) lines.
Proof.
  intros Hstart. unfold splice.
  destruct (Z.ltb_spec start 0); [lia|].
  f_equal. f_equal. f_equal. lia.
Qed.

(** X3.  Without edits the file is written back as it was read. *)
Theorem apply_edits_none src : apply_edits src [] = src.
Proof. unfold apply_edits. simpl. apply join_split. Qed.

(** X4.  One edit of lines [a] to [b] of a text puts the replacement's lines
    in their place and keeps every other line. *)
Theorem apply_edits_replaces_range (lines : list jsstring) (a b : nat) repl :
  lines <> [] -> Forall (fun line => newline ∉ line) lines ->
  (1 <= a)%nat -> (a <= b)%nat -> (b <= length lines)%nat ->
  apply_edits (join [newline] lines) [edit a b repl]
  = join [newline] (take (a - 1) lines ++ split_on newline repl ++ drop b lines).
Proof.
  intros Hne Hclean Ha Hab Hb. unfold apply_edits. simpl.
  rewrite split_join by done. rewrite splice_from by lia.
  f_equal. f_equal; [f_equal; lia|]. f_equal. f_equal. lia.
Qed.

Lemma apply_edits_replaces_range_witness :
  apply_edits (join [newline] three_lines) [edit 2 2 (lit "TWO")]
  = join [newline] (take (2 - 1) three_lines ++ split_on newline (lit "TWO")
                    ++ drop 2 three_lines).
Proof.
  apply (apply_edits_replaces_range three_lines 2 2 (lit "TWO")).
  - discriminate.
  - repeat constructor; vm_compute; intros H;
      repeat (apply elem_of_cons in H as [H|H]; [discriminate|]);
      by apply elem_of_nil in H.
  - lia.
  - lia.
  - simpl; lia.
Defined.

(** X5.  The edges of one edit: a start line past the end appends the
    replacement after the last line, and an end line before the start line
    deletes nothing and inserts the replacement before the start line. *)
Theorem apply_edits_out_of_range (lines : list jsstring) (a b : nat) repl :
  lines <> [] -> Forall (fun line => newline ∉ line) lines -> (1 <= a)%nat ->
  ((length lines < a)%nat ->
     apply_edits (join [newline] lines) [edit a b repl]
     = join [newline] (lines ++ split_on newline repl)) /\
  ((b < a)%nat -> (a <= length lines)%nat ->
     apply_edits (join [newline] lines) [edit a b repl]
     = join [newline] (take (a - 1) lines ++ split_on newline repl
                       ++ drop (a - 1) lines)).
Proof.
  intros Hne Hclean Ha. split.
  - intros Hpast. unfold apply_edits. simpl.
    rewrite split_join by done. rewrite splice_from by lia.
    rewrite take_ge by lia. rewrite drop_ge by lia. by rewrite app_nil_r.
  - intros Hinv Hin. unfold apply_edits. simpl.
    rewrite split_join by done. rewrite splice_from by lia.
    f_equal. f_equal; [f_equal; lia|]. f_equal. f_equal. lia.
Qed.

Lemma apply_edits_out_of_range_witness :
  apply_edits (join [newline] three_lines) [edit 7 9 (lit "four")]
  = lit "one" ++ [newline] ++ lit "two" ++ [newline] ++ lit "three"
    ++ [newline] ++ lit "four".
Proof.
  destruct (apply_edits_out_of_range three_lines 7 9 (lit "four")) as (H & _).
  - discriminate.
  - repeat constructor; vm_compute; intros H;
      repeat (apply elem_of_cons in H as [H|H]; [discriminate|]);
      by apply elem_of_nil in H.
  - lia.
  - rewrite H; [reflexivity|simpl; lia].
Defined.

(** Descending by start line. *)
Definition starts_after (e e' : Edit) : Prop := startLine e' <= startLine e.

#[local] Instance starts_after_trans : Transitive starts_after.
Proof. unfold starts_after. intros x y z ??. lia. Qed.

Lemma insert_desc_perm e l : insert_desc e l ≡ₚ e :: l.
Proof.
  induction l as [|e' l IH]; simpl; [done|].
  destruct (startLine e <? startLine e'); [|done].
  rewrite IH. apply Permutation_swap.
Qed.

Lemma insert_desc_sorted e l :
  Sorted starts_after l -> Sorted starts_after (insert_desc e l).
Proof.
  induction l as [|e' l IH]; simpl; intros Hl.
  - repeat constructor.
  - destruct (Z.ltb_spec (startLine e) (startLine e')).
    + apply Sorted_inv in Hl as (Hl & Hhd). constructor; [by apply IH|].
      destruct l as [|e'' l]; simpl.
      * constructor. unfold starts_after. lia.
      * destruct (Z.ltb_spec (startLine e) (startLine e''));
          constructor; unfold starts_after; [|lia].
        by apply HdRel_inv in Hhd.
    + constructor; [done|]. constructor. unfold starts_after. lia.
Qed.

Lemma sort_desc_perm es : sort_desc es ≡ₚ es.
Proof.
  induction es as [|e es IH]; simpl; [done|].
  by rewrite insert_desc_perm, IH.
Qed.

Lemma sort_desc_sorted es : Sorted starts_after (sort_desc es).
Proof.
  induction es as [|e es IH]; simpl; [constructor|].
  by apply insert_desc_sorted.
Qed.

Lemma same_start_same_edit (es : list Edit) e e' :
  NoDup (startLine <$> es) -> e ∈ es -> e' ∈ es ->
  startLine e = startLine e' -> e = e'.
Proof.
  induction es as [|x es IH]; simpl; intros Hnd He He' Hstart.
  - by apply elem_of_nil in He.
  - apply NoDup_cons in Hnd as (Hx & Hnd).
    apply elem_of_cons in He as [->|He]; apply elem_of_cons in He' as [->|He'].
    + done.
    + destruct Hx. rewrite Hstart. by apply list_elem_of_fmap_2.
    + destruct Hx. rewrite <- Hstart. by apply list_elem_of_fmap_2.
    + by apply IH.
Qed.

(** X6.  When no two edits start on the same line, the order in which the
    edits are listed does not matter. *)
Theorem apply_edits_order_irrelevant src (es es' : list Edit) :
  NoDup (startLine <$> es) -> es ≡ₚ es' ->
  apply_edits src es = apply_edits src es'.
Proof.
  intros Hnd Hperm. unfold apply_edits.
  replace (sort_desc es') with (sort_desc es); [done|].
  apply (Sorted_unique_strong starts_after).
  - intros x1 x2 H1 H2 H12 H21. unfold starts_after in *.
    apply (same_start_same_edit es); [done| | |lia].
    + by rewrite <- (sort_desc_perm es).
    + by rewrite Hperm, <- (sort_desc_perm es').
  - apply sort_desc_sorted.
  - apply sort_desc_sorted.
  - by rewrite !sort_desc_perm.
Qed.

Lemma apply_edits_order_irrelevant_witness :
  apply_edits (join [newline] three_lines)
    [edit 1 1 (lit "ONE"); edit 3 3 (lit "THREE")]
  = apply_edits (join [newline] three_lines)
      [edit 3 3 (lit "THREE"); edit 1 1 (lit "ONE")].
Proof.
  apply apply_edits_order_irrelevant.
  - simpl. apply NoDup_cons. split; [|apply NoDup_singleton].
    intros H. apply list_elem_of_singleton in H. discriminate.
  - apply Permutation_swap.
Defined.

(** X7.  Two edits of separate ranges, the first above the second: both line
    ranges are those of the text as it was read, because the lower edit is
    applied first. *)
Theorem apply_edits_two_ranges (lines : list jsstring) (a1 b1 a2 b2 : nat) r1 r2 :
  lines <> [] -> Forall (fun line => newline ∉ line) lines ->
  (1 <= a1)%nat -> (a1 <= b1)%nat -> (b1 < a2)%nat -> (a2 <= b2)%nat ->
  (b2 <= length lines)%nat ->
  apply_edits (join [newline] lines) [edit a1 b1 r1; edit a2 b2 r2]
  = join [newline]
      (take (a1 - 1) lines ++ split_on newline r1
       ++ take (a2 - 1 - b1) (drop b1 lines) ++ split_on newline r2
       ++ drop b2 lines).
Proof.
  intros Hne Hclean H1 H2 H3 H4 H5. unfold apply_edits.
  assert (Hsort : sort_desc [edit a1 b1 r1; edit a2 b2 r2]
                  = [edit a2 b2 r2; edit a1 b1 r1]).
  { simpl. destruct (Z.ltb_spec (Z.of_nat a1) (Z.of_nat a2)); [done|lia]. }
  rewrite Hsort. simpl. rewrite split_join by done.
  rewrite (splice_from lines) by lia.
  set (mid := take _ lines ++ split_on newline r2 ++ drop _ lines).
  assert (Hmid : mid = take (a2 - 1) lines ++ split_on newline r2 ++ drop b2 lines).
  { unfold mid. f_equal; [f_equal; lia|]. f_equal. f_equal. lia. }
  rewrite Hmid. clear mid Hmid. rewrite splice_from by lia.
  rewrite !length_app, length_take, length_drop.
  f_equal.
  replace (Z.to_nat (Z.min (Z.of_nat a1 - 1) _)) with (a1 - 1)%nat by lia.
  rewrite take_app_le by (rewrite length_take; lia).
  rewrite take_take. replace ((a1 - 1) `min` (a2 - 1))%nat with (a1 - 1)%nat by lia.
  f_equal. f_equal.
  match goal with |- drop ?n _ = _ => replace n with b1 by lia end.
  rewrite drop_app_le by (rewrite length_take; lia).
  f_equal. rewrite take_drop_commute. f_equal. f_equal. lia.
Qed.

Lemma apply_edits_two_ranges_witness :
  apply_edits (join [newline] three_lines)
    [edit 1 1 (lit "ONE"); edit 3 3 (lit "THREE")]
  = lit "ONE" ++ [newline] ++ lit "two" ++ [newline] ++ lit "THREE".
Proof.
  rewrite (apply_edits_two_ranges three_lines 1 1 3 3 (lit "ONE") (lit "THREE"));
    [reflexivity|discriminate| |lia|lia|lia|lia|simpl; lia].
  repeat constructor; vm_compute; intros H;
    repeat (apply elem_of_cons in H as [H|H]; [discriminate|]);
    by apply elem_of_nil in H.
Defined.

(** *** The allow-list of [cmd_run] *)

Lemma trimStart_blanks blanks s :
  forallb is_white_space blanks = true -> trimStart (blanks ++ s) = trimStart s.
Proof.
  induction blanks as [|c blanks IH]; simpl; [done|].
  intros H. apply andb_true_iff in H as (Hc & H). rewrite Hc. by apply IH.
Qed.

(** Trimming the end removes a tail of blanks and nothing else. *)
Lemma trimEnd_split s :
  exists blanks, s = trimEnd s ++ blanks /\ forallb is_white_space blanks = true.
Proof.
  destruct (trimStart_suffix (rev s)) as (blanks & Hsplit & Hblanks).
  exists (rev blanks). split.
  - unfold trimEnd. rewrite <- rev_app_distr, <- Hsplit. by rewrite rev_involutive.
  - rewrite forallb_forall in *. intros c Hc. apply Hblanks. by apply in_rev.
Qed.

Lemma first_word_word word tail :
  forallb (fun c => negb (is_white_space c)) word = true ->
  match tail with [] => True | c :: _ => is_white_space c = true end ->
  first_word (word ++ tail) = word.
Proof.
  induction word as [|c word IH]; simpl.
  - intros _ Htail. destruct tail as [|c tail]; [done|]. simpl. by rewrite Htail.
  - intros H Htail. apply andb_true_iff in H as (Hc & H).
    apply negb_true_iff in Hc. rewrite Hc. by rewrite IH.
Qed.

(** The word the allow-list looks at is the first word of the line. *)
Lemma first_word_of_line blanks word tail :
  forallb is_white_space blanks = true ->
  word <> [] ->
  forallb (fun c => negb (is_white_space c)) word = true ->
  match tail with [] => True | c :: _ => is_white_space c = true end ->
  first_word (trim (blanks ++ word ++ tail)) = word.
Proof.
  intros Hblanks Hne Hword Htail. unfold trim.
  rewrite trimStart_blanks by done.
  assert (Hstart : trimStart (word ++ tail) = word ++ tail).
  { destruct word as [|c word]; [done|]. simpl in *.
    apply andb_true_iff in Hword as (Hc & _). apply negb_true_iff in Hc.
    by rewrite Hc. }
  rewrite Hstart.
  destruct (trimEnd_split (word ++ tail)) as (rest & Hsplit & Hrest).
  symmetry in Hsplit. apply app_eq_inv in Hsplit as [(k & Hk & Hr)|(k & Hk & Ht)].
  - (* the trimmed line is the word and a part of the tail *)
    rewrite Hk. apply first_word_word; [done|].
    destruct k as [|c k]; [done|]. rewrite Hr in Htail. exact Htail.
  - (* the trimming would cut into the word: impossible *)
    destruct k as [|c k].
    + rewrite app_nil_r in Hk. rewrite <- Hk.
      pose proof (first_word_word word [] Hword I) as H.
      by rewrite app_nil_r in H.
    + exfalso. rewrite Ht in Hrest. simpl in Hrest.
      apply andb_true_iff in Hrest as (Hc & _).
      rewrite Hk, forallb_app in Hword. apply andb_true_iff in Hword as (_ & Hw).
      simpl in Hw. rewrite Hc in Hw. done.
Qed.

(** X8.  With the allow-list in force, a command line is allowed exactly when
    its first word is one of the thirteen allowed programs, whatever
    blanks come before it and whatever follows it; the call then hands the
    whole line to the shell.  A line whose first word is not allowed is
    refused before the shell is reached, the workspace untouched. *)
Theorem commandAllowed_by_first_word blanks word tail :
  forallb is_white_space blanks = true ->
  word <> [] ->
  forallb (fun c => negb (is_white_space c)) word = true ->
  match tail with [] => True | c :: _ => is_white_space c = true end ->
  commandAllowed (blanks ++ word ++ tail) false = bool_decide (word ∈ allowed) /\
  forall (W : Type) (host : Host W) root t (w : W),
    call (cmd_run_execute W host (mkToolOpts root false)
            {| cmd := blanks ++ word ++ tail; timeoutMs := t |}) w
    = if bool_decide (word ∈ allowed) then
        match execa W host (blanks ++ word ++ tail) root (default (10 * 60 * 1000) t) w with
        | (w', inl (exitCode, stdout, stderr)) =>
            (w', inl (CmdResult (blanks ++ word ++ tail) exitCode stdout stderr))
        | (w', inr e) => (w', inr e)
        end
      else
        (w, inr (new_Error (lit "Command blocked by allowlist: "
                            ++ blanks ++ word ++ tail))).
Proof.
  intros Hblanks Hne Hword Htail.
  assert (Hallowed : commandAllowed (blanks ++ word ++ tail) false
                     = bool_decide (word ∈ allowed)).
  { unfold commandAllowed. by rewrite first_word_of_line. }
  split; [done|].
  intros W host root t w. unfold cmd_run_execute, call.
  cbn [cmd allowUnsafe workspaceRoot timeoutMs].
  rewrite Hallowed. destruct (bool_decide (word ∈ allowed)); simpl; [|done].
  unfold mbind, Async_bind, bind.
  destruct (execa W host _ root _ w) as [w' [[[code out] err]|e]]; done.
Qed.

(** The allow-list does not look past the first word: a line that chains
    a second command after [git] is allowed. *)
Lemma commandAllowed_by_first_word_witness :
  commandAllowed (lit " git status && rm -rf .") false = true.
Proof.
  destruct (commandAllowed_by_first_word (lit " ") (lit "git")
              (lit " status && rm -rf .")) as (H & _).
  - reflexivity.
  - discriminate.
  - reflexivity.
  - reflexivity.
  - exact H.
Defined.

(** *** The tool objects of the Builder and of the Refactorer *)

(** X9.  The Refactorer is handed the very tools of the Builder, all eight of
    them: outside verifier mode no tool looks at the mode, so the deletes
    the comment discourages for the Refactorer are not held back.  For
    both roles each mutating tool goes to the lock. *)
Theorem refactorer_tools_are_builder_tools
    (W : Type) (host : Host W) (node_path : PathModule) (opts : ToolOpts) :
  createRefactorerTools W host node_path opts
    = createBuilderTools W host node_path opts /\
  dom (createBuilderTools W host node_path opts)
    = ({["fs_read"; "fs_write"; "fs_apply_edits"; "fs_delete"; "fs_mkdir";
         "fs_glob"; "fs_stat"; "cmd_run"]} : gset string)%string /\
  (forall name, name ∈ mutating ->
     exists tool,
       createRefactorerTools W host node_path opts !! name = Some tool /\
       forall i : input tool, exists body, execute tool i = Locked body).
Proof.
  split; [reflexivity|]. split.
  - apply (bool_decide_eq_true_1 _). vm_compute. reflexivity.
  - intros name Hname. unfold mutating in Hname. set_unfold.
    destruct Hname as [-> | [-> | [-> | [-> | []]]]];
      (eexists; split; [reflexivity|]); intros i; eexists; reflexivity.
Qed.

(** *** The parent directory that [fs_write] creates *)

(** X10.  With [mkdirp], the directory created is the resolved path up to its
    last slash (none when that is empty); the file is written only when
    the directory could be made.  Without [mkdirp] no directory is made. *)
Theorem fs_write_parent_directory
    (W : Type) (host : Host W) (node_path : PathModule) (opts : ToolOpts)
    (mode : Mode) (p dir name text : jsstring) (w : W) :
  mode <> verifier ->
  safePath node_path (workspaceRoot opts) p = inl (dir ++ [slash] ++ name) ->
  slash ∉ name ->
  call (fs_write_execute W host node_path opts mode
          {| write_path := p; contents := text; mkdirp := Some true |}) w
  = match (if bool_decide (dir = []) then (w, inl ()) else mkdir W host dir w) with
    | (w1, inl _) =>
        match writeFile W host (dir ++ [slash] ++ name) text w1 with
        | (w2, inl _) => (w2, inl (OkResult p))
        | (w2, inr e) => (w2, inr e)
        end
    | (w1, inr e) => (w1, inr e)
    end
  /\
  forall m, m <> Some true ->
    call (fs_write_execute W host node_path opts mode
            {| write_path := p; contents := text; mkdirp := m |}) w
    = match writeFile W host (dir ++ [slash] ++ name) text w with
      | (w2, inl _) => (w2, inl (OkResult p))
      | (w2, inr e) => (w2, inr e)
      end.
Proof.
  intros Hmode Hsafe Hname.
  assert (Hdir : join [slash] (removelast (split_on slash (dir ++ [slash] ++ name)))
                 = dir).
  { change (dir ++ [slash] ++ name) with (dir ++ slash :: name).
    rewrite split_on_app_sep, (split_on_clean slash name Hname).
    rewrite removelast_last. apply join_split. }
  unfold fs_write_execute. destruct (decide (mode = verifier)); [done|].
  unfold call, safePathM, mbind, Async_bind, bind, ret.
  cbn [write_path contents mkdirp]. rewrite Hsafe. split.
  - unfold default. cbn [from_option id]. cbv zeta. rewrite Hdir.
    destruct (bool_decide (dir = [])).
    + by destruct (writeFile W host _ text w) as [w2 [[]|e]].
    + destruct (mkdir W host dir w) as [w1 [[]|e]]; [|done].
      by destruct (writeFile W host _ text w1) as [w2 [[]|e]].
  - intros m Hm. destruct m as [[|]|]; [done| |]; simpl;
      by destruct (writeFile W host _ text w) as [w2 [[]|e]].
Qed.

Lemma fs_write_parent_directory_witness :
  call (fs_write_execute (list HostCall) recording_host (posix (lit "/")) ws_opts
          builder
          {| write_path := lit "src/a.txt"; contents := lit "x";
             mkdirp := Some true |}) []
  = ([Mkdir (lit "/ws/src"); WriteFile (lit "/ws/src/a.txt") (lit "x")],
     inl (OkResult (lit "src/a.txt"))).
Proof.
  destruct (fs_write_parent_directory (list HostCall) recording_host
              (posix (lit "/")) ws_opts builder (lit "src/a.txt") (lit "/ws/src")
              (lit "a.txt") (lit "x") []) as (H & _).
  - discriminate.
  - reflexivity.
  - vm_compute. intros H.
    repeat (apply elem_of_cons in H as [H|H]; [discriminate|]).
    by apply elem_of_nil in H.
  - rewrite H. reflexivity.
Defined.

(** *** What the path guard lets through *)

Lemma normalize_onto_foldl stack segs :
  normalize_onto stack segs = rev (foldl push stack segs).
Proof.
  revert stack; induction segs as [|seg segs IH]; intros stack; simpl; [done|].
  unfold push at 2.
  destruct (bool_decide (seg = []) || bool_decide (seg = [dot])); [apply IH|].
  destruct (bool_decide (seg = [dot; dot])); apply IH.
Qed.

Lemma split_on_no_sep sep s : Forall (fun seg => sep ∉ seg) (split_on sep s).
Proof.
  induction s as [|c s IH]; simpl.
  - repeat constructor. apply not_elem_of_nil.
  - destruct (N.eqb_spec c sep) as [->|Hne].
    + constructor; [apply not_elem_of_nil|done].
    + destruct (split_on sep s) as [|seg segs]; simpl.
      * repeat constructor. intros H. apply list_elem_of_singleton in H. done.
      * apply Forall_cons in IH as (Hseg & Hsegs). constructor; [|done].
        intros H. apply elem_of_cons in H as [H|H]; [done|by apply Hseg].
Qed.

Lemma foldl_push_clean segs : forall stack,
  Forall clean stack -> Forall (fun seg => slash ∉ seg) segs ->
  Forall clean (foldl push stack segs).
Proof.
  induction segs as [|seg segs IH]; intros stack Hstack Hsegs; simpl; [done|].
  apply Forall_cons in Hsegs as (Hseg & Hsegs). apply IH; [|done].
  unfold push. repeat case_bool_decide; simpl; try done.
  - destruct stack; [done|]. simpl. by apply Forall_cons in Hstack as (_ & ?).
  - constructor; [|done]. unfold clean. naive_solver.
Qed.

Lemma normalize_clean path : Forall clean (normalize path).
Proof.
  unfold normalize. rewrite normalize_onto_foldl.
  apply Forall_rev.
  apply foldl_push_clean; [constructor|apply split_on_no_sep].
Qed.

Lemma normalize_onto_clean segs : forall stack,
  Forall clean segs -> normalize_onto stack segs = rev stack ++ segs.
Proof.
  induction segs as [|seg segs IH]; intros stack Hsegs; simpl.
  - by rewrite app_nil_r.
  - apply Forall_cons in Hsegs as ((H1 & H2 & H3 & _) & Hsegs).
    rewrite !bool_decide_eq_false_2 by done. simpl.
    rewrite IH by done. simpl. by rewrite <- app_assoc.
Qed.

(** Normalising a resolved path gives back its segments. *)
Lemma normalize_resolved segs :
  Forall clean segs -> normalize (slash :: join [slash] segs) = segs.
Proof.
  intros Hsegs. unfold normalize.
  change (split_on slash (slash :: join [slash] segs))
    with ([] :: split_on slash (join [slash] segs)).
  destruct segs as [|seg segs]; [reflexivity|].
  rewrite split_join.
  - change (normalize_onto [] ([] :: seg :: segs))
      with (normalize_onto [] (seg :: segs)).
    by rewrite (normalize_onto_clean (seg :: segs) []).
  - done.
  - eapply Forall_impl; [exact Hsegs|]. by intros ? (_ & _ & _ & ?).
Qed.

(** Resolving the empty path or ["."] against an absolute root gives the root. *)
Lemma normalize_root_itself root p :
  p = [] \/ p = [dot] -> normalize (root ++ [slash] ++ p) = normalize root.
Proof.
  intros Hp. unfold normalize.
  change (root ++ [slash] ++ p) with (root ++ slash :: p).
  rewrite split_on_app_sep, !normalize_onto_foldl, foldl_app. f_equal.
  destruct Hp as [-> | ->]; reflexivity.
Qed.

Lemma strip_common_same xs : strip_common xs xs = ([], []).
Proof.
  induction xs as [|x xs IH]; simpl; [done|]. by rewrite bool_decide_eq_true_2.
Qed.

(** X11.  The guard is sound on POSIX paths: a path it lets through is the
    resolved path, and that path lies inside the workspace root. *)
Theorem safePath_accepts_only_inside cwd root userPath abs :
  safePath (posix cwd) root userPath = inl abs ->
  abs = posix_resolve cwd root userPath /\
  normalize (posix_resolve cwd [] root) `prefix_of`
    normalize (posix_resolve cwd [] abs).
Proof.
  unfold safePath. cbn [resolve relative posix].
  destruct (starts_with _ _ || includes _ _) eqn:E; [done|].
  intros [= <-]. split; [done|].
  destruct (decide (normalize (posix_resolve cwd [] root) `prefix_of`
                    normalize (posix_resolve cwd []
                                 (posix_resolve cwd root userPath))))
    as [Hin|Hout]; [done|].
  apply (outside_relative_dotdot cwd root) in Hout.
  rewrite Hout in E. done.
Qed.

Lemma safePath_accepts_only_inside_witness :
  lit "/ws/src/index.ts" = posix_resolve (lit "/") (lit "/ws") (lit "src/index.ts") /\
  normalize (posix_resolve (lit "/") [] (lit "/ws")) `prefix_of`
    normalize (posix_resolve (lit "/") [] (lit "/ws/src/index.ts")).
Proof.
  apply (safePath_accepts_only_inside (lit "/") (lit "/ws") (lit "src/index.ts")).
  reflexivity.
Defined.

(** X12.  The workspace root itself passes the guard: the empty path and ["."]
    resolve to the root, whose relative form is empty.  So [fs_delete] of ["."], by
    the Builder or the Refactorer, asks the host to remove the whole
    workspace. *)
Theorem safePath_accepts_root cwd root p :
  is_absolute root = true -> p = [] \/ p = [dot] ->
  safePath (posix cwd) root p = inl (slash :: join [slash] (normalize root)) /\
  forall (W : Type) (host : Host W) allow mode (w : W),
    mode <> verifier ->
    call (fs_delete_execute W host (posix cwd) (mkToolOpts root allow) mode
            {| path := p |}) w
    = match rm W host (slash :: join [slash] (normalize root)) w with
      | (w', inl _) => (w', inl (OkResult p))
      | (w', inr e) => (w', inr e)
      end.
Proof.
  intros Habs Hp.
  assert (Hres : posix_resolve cwd root p = slash :: join [slash] (normalize root)).
  { unfold posix_resolve. rewrite Habs.
    assert (is_absolute p = false) as -> by (destruct Hp as [-> | ->]; done).
    by rewrite normalize_root_itself. }
  assert (Hroot : normalize (posix_resolve cwd [] root) = normalize root).
  { unfold posix_resolve. rewrite Habs.
    apply normalize_resolved, normalize_clean. }
  assert (Hsafe : safePath (posix cwd) root p
                  = inl (slash :: join [slash] (normalize root))).
  { unfold safePath. cbn [resolve relative posix]. rewrite Hres.
    unfold posix_relative. rewrite Hroot.
    assert (Hsame : normalize (posix_resolve cwd []
                                 (slash :: join [slash] (normalize root)))
                    = normalize root).
    { unfold posix_resolve.
      change (is_absolute (slash :: join [slash] (normalize root))) with true.
      cbv iota.
      rewrite !normalize_resolved; auto using normalize_clean. }
    rewrite Hsame, strip_common_same. reflexivity. }
  split; [done|].
  intros W host allow mode w Hmode. unfold fs_delete_execute.
  destruct (decide (mode = verifier)); [done|].
  unfold call, safePathM, mbind, Async_bind, bind, ret.
  cbn [path workspaceRoot]. rewrite Hsafe.
  by destruct (rm W host _ w) as [w' [[]|e]].
Qed.

Lemma safePath_accepts_root_witness :
  call (fs_delete_execute (list HostCall) recording_host (posix (lit "/")) ws_opts
          refactorer {| path := lit "." |}) []
  = ([Rm (lit "/ws")], inl (OkResult (lit "."))).
Proof.
  destruct (safePath_accepts_root (lit "/") (lit "/ws") (lit ".")) as (_ & H).
  - reflexivity.
  - by right.
  - etransitivity.
    + apply (H (list HostCall) recording_host false refactorer []). discriminate.
    + reflexivity.
Defined.

(** *** Reading with a byte limit *)

(** X13.  [fs_read] reports the full size of the file, hands back its first
    [limit] bytes and says it truncated exactly when the file is longer
    than the limit (200000 when the caller gives none). *)
Theorem fs_read_truncates_to_limit
    (W : Type) (host : Host W) (node_path : PathModule) (opts : ToolOpts)
    (p abs : jsstring) (limit : option Z) (buf : list N) (w w' : W) :
  safePath node_path (workspaceRoot opts) p = inl abs ->
  readFile W host abs w = (w', inl buf) ->
  0 < default 200000 limit ->
  exists sliced,
    call (fs_read_execute W host node_path opts
            {| read_path := p; maxBytes := limit |}) w
    = (w', inl (ReadResult p (Z.of_nat (length buf))
                  (bool_decide (default 200000 limit < Z.of_nat (length buf)))
                  (utf8 W host sliced)))
    /\ sliced `prefix_of` buf
    /\ Z.of_nat (length sliced)
       = Z.min (Z.of_nat (length buf)) (default 200000 limit).
Proof.
  intros Hsafe Hread Hpos.
  set (n := default 200000 limit) in *.
  exists (if n <? Z.of_nat (length buf) then take (Z.to_nat n) buf else buf).
  split; [|split].
  - unfold call, fs_read_execute, safePathM, mbind, Async_bind, bind, ret.
    cbn [read_path maxBytes]. rewrite Hsafe, Hread. fold n.
    repeat f_equal.
    destruct (Z.ltb_spec n (Z.of_nat (length buf))).
    + by rewrite bool_decide_eq_true_2.
    + rewrite bool_decide_eq_false_2; [done|lia].
  - destruct (n <? Z.of_nat (length buf)); [apply prefix_take|done].
  - destruct (Z.ltb_spec n (Z.of_nat (length buf))).
    + rewrite length_take. lia.
    + lia.
Qed.

Lemma fs_read_truncates_to_limit_witness :
  exists sliced,
    call (fs_read_execute (list HostCall)
            {| readFile := fun _ w => (w, inl [104; 101; 108; 108; 111]%N);
               readFile_utf8 := readFile_utf8 _ recording_host;
               writeFile := writeFile _ recording_host;
               mkdir := mkdir _ recording_host;
               rm := rm _ recording_host;
               stat := stat _ recording_host;
               fg := fg _ recording_host;
               execa := execa _ recording_host;
               utf8 := fun bytes => bytes |}
            (posix (lit "/")) ws_opts
            {| read_path := lit "a.txt"; maxBytes := Some 2 |}) []
    = ([], inl (ReadResult (lit "a.txt") 5 true sliced))
    /\ sliced = lit "he".
Proof.
  destruct (fs_read_truncates_to_limit (list HostCall)
              {| readFile := fun _ w => (w, inl [104; 101; 108; 108; 111]%N);
                 readFile_utf8 := readFile_utf8 _ recording_host;
                 writeFile := writeFile _ recording_host;
                 mkdir := mkdir _ recording_host;
                 rm := rm _ recording_host;
                 stat := stat _ recording_host;
                 fg := fg _ recording_host;
                 execa := execa _ recording_host;
                 utf8 := fun bytes => bytes |}
              (posix (lit "/")) ws_opts (lit "a.txt") (lit "/ws/a.txt")
              (Some 2) [104; 101; 108; 108; 111]%N [] [])
    as (sliced & Hcall & Hprefix & Hlen).
  - reflexivity.
  - reflexivity.
  - simpl. lia.
  - exists sliced. split; [exact Hcall|].
    destruct Hprefix as (rest & Hrest).
    destruct sliced as [|a [|b [|c sliced]]]; simpl in Hlen; try lia.
    by injection Hrest as <- <- _.
Defined.

(** *** [fs_glob] and the guard *)

(** C10 as stated fails here: the guard refuses the path [a..b], but
    [fs_glob], which is one of the file tools of every role, is not behind
    the guard.  The patterns [a..b] and [../*] reach the glob library,
    with the workspace root as [cwd], and the call answers with the
    library's entries instead of an error. *)
Lemma fs_glob_is_not_guarded :
  safePath (posix (lit "/")) (lit "/ws") (lit "a..b") = inr (escapes (lit "a..b")) /\
  createCommonTools (list HostCall) recording_host (posix (lit "/")) ws_opts verifier
    !! "fs_glob"%string
  = Some (mkTool (list HostCall) GlobInput (fun _ => None)
            (fs_glob_execute (list HostCall) recording_host ws_opts)) /\
  call (fs_glob_execute (list HostCall) recording_host ws_opts
          {| pattern := lit "a..b"; ignore := None |}) []
  = ([Glob (lit "a..b") (lit "/ws")], inl (GlobResult (lit "a..b") 0 [])) /\
  call (fs_glob_execute (list HostCall) recording_host ws_opts
          {| pattern := lit "../*"; ignore := None |}) []
  = ([Glob (lit "../*") (lit "/ws")], inl (GlobResult (lit "../*") 0 [])).
Proof. repeat split. Qed.

End ToolsMore.

(** ** More of the orchestrator: what holds along every run *)

Module OrchestratorMore.
Import JsString Json Extract Orchestrator.

(** The Refactorer's answered prompts in a sequence of events. *)
Definition refactorer_responses (events : list Event) : nat :=
  length (filter (fun e => match e with
                           | Prompted Refactorer (inl _) => true
                           | _ => false
                           end = true) events).

(** The Builder's passes and prompts agree with the iteration counter. *)
Definition builder_inv (opts : OrchestratorOpts) (w : World) : Prop :=
  0 <= iteration (state w) <= Z.max 0 (maxIterations opts) /\
  match bpc w with
  | BPersistStart => Z.of_nat (issued_by Builder w) + 1 = iteration (state w)
  | BPrompt | BPersistReport | BDone =>
      Z.of_nat (issued_by Builder w) = iteration (state w)
  | BRejected _ =>
      Z.of_nat (issued_by Builder w) <= iteration (state w)
      <= Z.of_nat (issued_by Builder w) + 1
  end.

(** The Refactorer's prompts agree with its counter and its time stamp. *)
Definition refactorer_inv (w : World) : Prop :=
  0 <= ranCount (refactorer (state w)) /\
  match rpc w with
  | RPrompt =>
      Z.of_nat (issued_by Refactorer w) = ranCount (refactorer (state w)) + 1
  | RSleep _ _ | RPersist | RDone =>
      Z.of_nat (issued_by Refactorer w) = ranCount (refactorer (state w))
  | RRejected _ =>
      ranCount (refactorer (state w)) <= Z.of_nat (issued_by Refactorer w)
      <= ranCount (refactorer (state w)) + 1
  end /\
  match lastRanAt (refactorer (state w)) with
  | None => ranCount (refactorer (state w)) = 0
  | Some t => 0 < ranCount (refactorer (state w)) /\ t <= clock w
  end.

(** No prompt of the Refactorer was built from a state whose verdict is
    PASS. *)
Definition no_refactor_on_pass (w : World) : Prop :=
  Forall (fun x => x.1 = Refactorer -> verdict_is x.2 "PASS" = false) (issued w).

(** The Verifier has not verified again since it went to sleep until [d]
    with [n] prompts behind it and the record [v]. *)
Definition verifier_resting (d : Z) (n : nat) (v : VerifierState) (w : World) : Prop :=
  d <= clock w \/
  (issued_by Verifier w = n /\ verifier (state w) = v /\
   (vpc w = VSleep d false \/
    (aborted w = true /\ (vpc w = VSleep d true \/ vpc w = VDone)))).

(** [state.iteration < opts.maxIterations] (line 127) for the counter [n]
    and a maximum [x] that is any finite number: the command line passes
    [Number(v)] on as it is, and every finite double is a rational. *)
Definition below (n : Z) (x : Q) : bool :=
  if Qlt_le_dec (inject_Z n) x then true else false.

(** The loop condition of the Builder and the pass up to its first await
    (lines 127 to 129), for such a maximum. *)
Definition builder_head_at (x : Q) (w : World) : World :=
  if negb (aborted w) && below (iteration (state w)) x then
    set_bpc BPersistStart
      (set_state (with_iteration (iteration (state w) + 1) (state w)) w)
  else set_bpc BDone w.

(** Three passes of the Builder, none of which reports. *)
Definition three_passes : list Event :=
  [Persisted Builder None; Prompted Builder (inl (lit "Still working."));
   Persisted Builder None;
   Persisted Builder None; Prompted Builder (inl (lit "Still working."));
   Persisted Builder None;
   Persisted Builder None; Prompted Builder (inl (lit "Still working."));
   Persisted Builder None].

(** The first report block of a response, as [extractTaggedJson] cuts it
    out, is parsed by the host to the object [props]. *)
Definition block_parses (js : Js) (response : jsstring) (tag : string)
    (props : list (jsstring * JSON)) : Prop :=
  exists i j : nat,
    first_occurrence (start_marker (lit tag)) response 0 i /\
    first_occurrence end_marker response (i + length (start_marker (lit tag))) j /\
    JSON_parse js (trim (between response (i + length (start_marker (lit tag))) j))
    = inl (JObject props).

(** The Builder's pass has started and has not sent its prompt yet. *)
Definition unsent_prompt (w : World) : nat :=
  match bpc w with BPersistStart => 1 | _ => 0 end.

(** The Verifier fails with a blocker that mentions duplication, and the
    Refactorer runs once. *)
Definition refactor_round : list Event :=
  verifier_fails ++
  [Tick 1000; Woken Refactorer;
   Prompted Refactorer (inl (lit "Extracted the shared parser."));
   Persisted Refactorer None; Tick 1000; Woken Refactorer].

(** The Verifier passes and goes to sleep; the Builder's report then says
    the exit criteria are met. *)
Definition builder_reports_done : list Event :=
  [Prompted Verifier (inl (reply "VERIFIER_REPORT_JSON" verifier_pass));
   Persisted Verifier None;
   Persisted Builder None;
   Prompted Builder (inl (reply "BUILDER_REPORT_JSON" builder_met))].

(** The run to its end: the Builder's check raises the signal and the two
    sleepers leave. *)
Definition completed_run : list Event :=
  builder_reports_done ++ [Persisted Builder None; Woken Verifier; Woken Refactorer].

(** The Builder reports its exit criteria met before any verdict and
    starts a second pass; the Verifier then passes and raises the signal
    while that pass waits for the state file. *)
Definition abort_mid_pass : list Event :=
  [Persisted Builder None;
   Prompted Builder (inl (reply "BUILDER_REPORT_JSON" builder_met));
   Persisted Builder None;
   Prompted Verifier (inl (reply "VERIFIER_REPORT_JSON" verifier_pass));
   Persisted Verifier None].

Ltac issued_facts :=
  unfold issued_by, issue in *; simpl in *;
  rewrite ?filter_app, ?length_app, ?filter_cons, ?filter_nil in *; simpl in *;
  repeat case_decide; simplify_eq/=; try done; try lia.

(** After the case analysis of a step: the tests met on the way decide
    the matches of an invariant. *)
Ltac settle_matches :=
  repeat match goal with
         | H : ?x = _, H' : context [match ?x with _ => _ end] |- _ =>
             rewrite H in H'
         end.

Section RunFacts.

Variable js : Js.
Variable opts : OrchestratorOpts.

(** *** The Builder's prompts and the iteration counter *)

Lemma start_builder_inv t0 now w0 :
  start opts t0 now = Some w0 -> builder_inv opts w0 /\ startedAt (state w0) = t0.
Proof.
  unfold start, refactorer_head, verifier_head, builder_head, builder_inv. simpl.
  destruct (Z.ltb_spec 0 (maxIterations opts)); simpl; intros [= <-]; simpl;
    (split; [|done]); split; try lia; reflexivity.
Qed.

Lemma step_builder_inv e w w' :
  builder_inv opts w -> step js opts e w = Some w' -> builder_inv opts w'.
Proof.
  intros Hinv Hstep.
  step_cases Hstep;
    unfold builder_inv in *; destruct Hinv as (Hit & Hpc); settle_matches;
    issued_facts;
    repeat match goal with
           | H : _ && (_ <? _) = true |- _ =>
               apply andb_true_iff in H as (_ & H); apply Z.ltb_lt in H
           end; try lia.
  all: (split; [lia|]); first [done | lia | destruct (bpc _); lia].
Qed.

Lemma run_builder_inv events : forall w w',
  builder_inv opts w -> run js opts events w = Some w' -> builder_inv opts w'.
Proof.
  induction events as [|e events IH]; intros w w' Hinv; simpl.
  - by intros [= <-].
  - destruct (step js opts e w) as [w1|] eqn:E; [|done].
    apply IH. by apply (step_builder_inv e w).
Qed.

Lemma run_startedAt events : forall w w',
  run js opts events w = Some w' -> startedAt (state w') = startedAt (state w).
Proof.
  induction events as [|e events IH]; intros w w'; simpl.
  - by intros [= <-].
  - destruct (step js opts e w) as [w1|] eqn:E; [|done]. intros Hrun.
    rewrite (IH _ _ Hrun). clear Hrun IH. step_cases E.
Qed.

(** *** The Refactorer's counter *)

Lemma step_refactorer_inv e w w' :
  refactorer_inv w -> step js opts e w = Some w' ->
  refactorer_inv w' /\
  ranCount (refactorer (state w'))
  = ranCount (refactorer (state w)) + Z.of_nat (refactorer_responses [e]).
Proof.
  intros Hinv Hstep.
  step_cases Hstep;
    unfold refactorer_inv, refactorer_responses in *;
    destruct Hinv as (Hn & Hpc & Hlast); settle_matches;
    issued_facts;
    repeat match goal with
           | H : (0 <=? _) = true |- _ => apply Z.leb_le in H
           end;
    try (destruct (lastRanAt _); lia).
  all: (split; [|lia]); (split; [done|]);
    (split; [first [done | lia | destruct (rpc _); lia]|]);
    destruct (lastRanAt _); lia.
Qed.

Lemma run_refactorer_inv events : forall w w',
  refactorer_inv w -> run js opts events w = Some w' ->
  refactorer_inv w' /\
  ranCount (refactorer (state w'))
  = ranCount (refactorer (state w)) + Z.of_nat (refactorer_responses events).
Proof.
  induction events as [|e events IH]; intros w w' Hinv; simpl.
  - intros [= <-]. split; [done|]. unfold refactorer_responses. simpl. lia.
  - destruct (step js opts e w) as [w1|] eqn:E; [|done]. intros Hrun.
    destruct (step_refactorer_inv _ _ _ Hinv E) as (Hinv1 & H1).
    destruct (IH _ _ Hinv1 Hrun) as (Hinv' & H').
    split; [done|]. rewrite H', H1.
    unfold refactorer_responses. rewrite !filter_cons, filter_nil.
    destruct (decide _); simpl; lia.
Qed.

(** X15.  Along every run from the start [ranCount] is the number of responses
    the Refactorer has received; its prompts are that many, or one more
    while a prompt is pending (or failed); and [lastRanAt] is set exactly
    when [ranCount] is positive, to a moment that is not in the future. *)
Theorem ranCount_counts_answered_prompts t0 now w0 events w :
  start opts t0 now = Some w0 -> run js opts events w0 = Some w ->
  ranCount (refactorer (state w)) = Z.of_nat (refactorer_responses events) /\
  ranCount (refactorer (state w)) <= Z.of_nat (issued_by Refactorer w)
    <= ranCount (refactorer (state w)) + 1 /\
  (rpc w = RPrompt ->
     Z.of_nat (issued_by Refactorer w) = ranCount (refactorer (state w)) + 1) /\
  (lastRanAt (refactorer (state w)) = None <-> ranCount (refactorer (state w)) = 0) /\
  (forall t, lastRanAt (refactorer (state w)) = Some t -> t <= clock w).
Proof.
  intros Hstart Hrun.
  assert (Hinv0 : refactorer_inv w0 /\ ranCount (refactorer (state w0)) = 0).
  { revert Hstart.
    unfold start, refactorer_head, verifier_head, builder_head, refactorer_inv.
    simpl. destruct (0 <? maxIterations opts); simpl; by intros [= <-]. }
  destruct Hinv0 as (Hinv0 & Hzero).
  destruct (run_refactorer_inv _ _ _ Hinv0 Hrun) as ((Hn & Hpc & Hlast) & Hcount).
  split; [lia|].
  split; [destruct (rpc w); lia|].
  split; [intros Hp; rewrite Hp in Hpc; lia|].
  split.
  - destruct (lastRanAt _); [|done]. split; [done|lia].
  - intros t Ht. rewrite Ht in Hlast. lia.
Qed.

(** *** Prompts the Refactorer never sends *)

Lemma step_no_refactor_on_pass e w w' :
  no_refactor_on_pass w -> step js opts e w = Some w' -> no_refactor_on_pass w'.
Proof.
  unfold no_refactor_on_pass. intros Hinv Hstep.
  step_cases Hstep; try done;
    apply Forall_app; (split; [done|]); constructor; try done; simpl; try done.
Qed.

(** X16.  Whatever the Builder and the Verifier ask for and whenever they ask,
    the Refactorer never sends a prompt built from a state whose verdict
    is PASS: the state it quotes is always one the Verifier has not passed. *)
Theorem refactorer_never_prompts_on_pass events : forall w w',
  no_refactor_on_pass w -> run js opts events w = Some w' ->
  no_refactor_on_pass w'.
Proof.
  induction events as [|e events IH]; intros w w' Hinv; simpl.
  - by intros [= <-].
  - destruct (step js opts e w) as [w1|] eqn:E; [|done].
    apply IH. by apply (step_no_refactor_on_pass e w).
Qed.

(** *** Prompts after the signal is raised *)

Lemma step_prompts_after_abort e w w' :
  aborted w = true -> step js opts e w = Some w' ->
  aborted w' = true /\
  issued_by Verifier w' = issued_by Verifier w /\
  issued_by Refactorer w' = issued_by Refactorer w /\
  (issued_by Builder w' + unsent_prompt w'
   <= issued_by Builder w + unsent_prompt w)%nat.
Proof.
  intros Ha Hstep.
  step_cases Hstep; rewrite ?Ha in *; simplify_eq/=;
    unfold unsent_prompt; simpl;
    repeat match goal with H : bpc _ = _ |- _ => rewrite H end;
    issued_facts.
Qed.

(** X17.  Once the signal is raised the Verifier and the Refactorer send no
    further prompt.  The Builder still sends one if its pass is waiting
    for the state file to be written: between that write and the prompt
    the signal is not looked at. *)
Theorem abort_stops_new_prompts events : forall w w',
  aborted w = true -> run js opts events w = Some w' ->
  issued_by Verifier w' = issued_by Verifier w /\
  issued_by Refactorer w' = issued_by Refactorer w /\
  (issued_by Builder w'
   <= issued_by Builder w + unsent_prompt w)%nat /\
  (bpc w = BPersistStart ->
     exists w1, step js opts (Persisted Builder None) w = Some w1 /\
                aborted w1 = true /\
                issued w1 = issued w ++ [(Builder, state w)]).
Proof.
  intros w w' Ha Hrun.
  assert (H : issued_by Verifier w' = issued_by Verifier w /\
              issued_by Refactorer w' = issued_by Refactorer w /\
              (issued_by Builder w' + unsent_prompt w'
               <= issued_by Builder w
                  + unsent_prompt w)%nat).
  { revert w w' Ha Hrun.
    induction events as [|e events IH]; intros w w' Ha; simpl.
    - intros [= <-]. lia.
    - destruct (step js opts e w) as [w1|] eqn:E; [|done]. intros Hrun.
      destruct (step_prompts_after_abort _ _ _ Ha E) as (Ha1 & Hv1 & Hr1 & Hb1).
      destruct (IH _ _ Ha1 Hrun) as (Hv & Hr & Hb).
      split; [congruence|]. split; [congruence|]. lia. }
  destruct H as (Hv & Hr & Hb).
  split; [done|]. split; [done|]. split; [unfold unsent_prompt in *; lia|].
  intros Hpc. unfold step. rewrite Hpc. eexists. split; [done|]. done.
Qed.

(** *** After the last loop has settled *)

Lemma step_finished e w w' :
  finished w = true -> step js opts e w = Some w' ->
  role_of e = None /\ finished w' = true /\ state w' = state w /\
  issued w' = issued w /\ aborted w' = aborted w /\
  refactorTriggerRequested w' = refactorTriggerRequested w.
Proof.
  unfold finished. intros Hfin Hstep.
  destruct (bpc w) eqn:Eb; try done; destruct (vpc w) eqn:Ev; try done;
    destruct (rpc w) eqn:Er; try done.
  all: destruct e as [dt|[| |] [err|]|[| |] [response|err]|[| |]];
    simpl in Hstep; rewrite ?Eb, ?Ev, ?Er in Hstep; try done.
  all: destruct (0 <=? dt); [|done]; injection Hstep as <-; simpl;
    by rewrite Eb, Ev, Er.
Qed.

(** X18.  Once all three loops have settled nothing but the passing of time can
    happen: the state that [runOrchestrator] reports after [allSettled] is
    final, and no prompt is sent any more. *)
Theorem finished_is_final events : forall w w',
  finished w = true -> run js opts events w = Some w' ->
  Forall (fun e => role_of e = None) events /\
  finished w' = true /\ state w' = state w /\ issued w' = issued w /\
  aborted w' = aborted w /\
  refactorTriggerRequested w' = refactorTriggerRequested w.
Proof.
  induction events as [|e events IH]; intros w w' Hfin; simpl.
  - by intros [= <-].
  - destruct (step js opts e w) as [w1|] eqn:E; [|done]. intros Hrun.
    destruct (step_finished _ _ _ Hfin E) as (He & Hfin1 & Hs1 & Hi1 & Ha1 & Ht1).
    destruct (IH _ _ Hfin1 Hrun) as (Hes & Hfin' & Hs' & Hi' & Ha' & Ht').
    split; [by constructor|]. split; [done|]. repeat split; congruence.
Qed.

(** *** Who sets and who clears the trigger *)

(** X19.  The trigger is cleared only by the Refactorer at its loop condition,
    and only while the signal is not raised.  It is set only by the
    Builder, when its report asks for a refactoring, or by the Builder or
    the Verifier at the end of a pass that finds the verdict FAIL with a
    refactoring recommended and the run not complete. *)
Theorem trigger_protocol e w w' :
  step js opts e w = Some w' ->
  (refactorTriggerRequested w = true -> refactorTriggerRequested w' = false ->
     aborted w = false /\
     (e = Woken Refactorer \/ e = Persisted Refactorer None)) /\
  (refactorTriggerRequested w = false -> refactorTriggerRequested w' = true ->
     (exists response, e = Prompted Builder (inl response) /\
                       wantsRefactor (builder (state w')) = true) \/
     ((e = Persisted Builder None \/ e = Persisted Verifier None) /\
      refactor_wanted (state w) = true /\ complete (state w) = false)).
Proof.
  intros Hstep.
  step_cases Hstep; (split; intros H1 H2); simplify_eq/=;
    try congruence; eauto 10.
Qed.

(** *** Reports that cannot be read *)

Lemma flag_true report name :
  flag report name = true ->
  exists props v, report = Some (JObject props) /\
                  lookup_prop (lit name) props = Some v /\ Boolean v = true.
Proof.
  unfold flag, optional_get.
  destruct report as [[| | | | |props]|]; try done.
  destruct (lookup_prop (lit name) props) as [v|] eqn:E; [|done].
  intros H. exists props, v. split; [done|]. split; [done|].
  by destruct v.
Qed.

(** A defined result comes from the first block of the text: the host
    parsed the trimmed block, or it is the failure object of the block. *)
Lemma extract_some_block JSON_parse text tag v :
  extractTaggedJson JSON_parse text tag = Some v ->
  exists i j : nat,
    first_occurrence (start_marker tag) text 0 i /\
    first_occurrence end_marker text (i + length (start_marker tag)) j /\
    (JSON_parse (trim (between text (i + length (start_marker tag)) j)) = inl v \/
     exists e,
       v = parse_failure e (trim (between text (i + length (start_marker tag)) j))).
Proof.
  intros Hsome.
  destruct (Z.ltb_spec (indexOf text (start_marker tag) 0) 0) as [Hneg|Hpos].
  { unfold extractTaggedJson in Hsome.
    destruct (Z.ltb_spec (indexOf text (start_marker tag) 0) 0); [done|lia]. }
  pose proof (indexOf_found text _ 0%nat _ ltac:(lia) eq_refl Hpos) as Hi.
  pose proof Hi as (_ & Hocc & _).
  pose proof (occurs_at_length _ _ _ (start_marker_nonempty tag) Hocc) as Hlen.
  set (i := Z.to_nat (indexOf text (start_marker tag) 0)) in *.
  assert (Hidx : indexOf text (start_marker tag) 0
                 + Z.of_nat (length (start_marker tag))
                 = Z.of_nat (i + length (start_marker tag))) by lia.
  destruct (Z.ltb_spec (indexOf text end_marker
              (Z.of_nat (i + length (start_marker tag)))) 0) as [Hneg'|Hpos'].
  { unfold extractTaggedJson in Hsome.
    destruct (Z.ltb_spec (indexOf text (start_marker tag) 0) 0); [lia|].
    rewrite Hidx in Hsome.
    destruct (Z.ltb_spec (indexOf text end_marker
                (Z.of_nat (i + length (start_marker tag)))) 0); [done|lia]. }
  pose proof (indexOf_found text _ _ _ Hlen eq_refl Hpos') as Hj.
  rewrite (extract_found JSON_parse text tag _ _ Hi Hj) in Hsome.
  eexists _, _. split; [exact Hi|]. split; [exact Hj|].
  destruct (JSON_parse _) as [v'|e]; [left|right; exists e]; congruence.
Qed.

(** X20.  The Builder counts as done exactly on a response whose first
    report block (from the first start marker to the first end marker
    after it, trimmed) the host parses to an object with a truthy
    [exitCriteriaMet]; the verdict is PASS exactly on a response whose
    first report block parses to an object whose [verdict] is the string
    PASS.  A block that does not parse never counts.  A response without
    a block leaves [exitCriteriaMet] and [wantsRefactor] false, keeps the
    raw response as the last report and leaves the trigger alone; for the
    Verifier it gives the verdict UNKNOWN and no blockers. *)
Theorem completion_needs_parsed_report response w :
  (exitCriteriaMet (builder (state (builder_update js response w))) = true <->
     exists props v,
       block_parses js response "BUILDER_REPORT_JSON" props /\
       lookup_prop (lit "exitCriteriaMet") props = Some v /\ Boolean v = true) /\
  (verdict_is (state (verifier_update js response w)) "PASS" = true <->
     exists props,
       block_parses js response "VERIFIER_REPORT_JSON" props /\
       lookup_prop (lit "verdict") props = Some (JString (lit "PASS"))) /\
  (extractTaggedJson (JSON_parse js) response (lit "BUILDER_REPORT_JSON") = None ->
     builder (state (builder_update js response w))
       = mkBuilder (Some (JString response)) false false /\
     refactorTriggerRequested (builder_update js response w)
       = refactorTriggerRequested w) /\
  (extractTaggedJson (JSON_parse js) response (lit "VERIFIER_REPORT_JSON") = None ->
     v_lastReport (verifier (state (verifier_update js response w)))
       = Some (JString response) /\
     verdict (verifier (state (verifier_update js response w)))
       = JString (lit "UNKNOWN") /\
     blockers (verifier (state (verifier_update js response w)))
       = Some (JArray [])).
Proof.
  assert (Hflag : forall tag name,
            lit name <> lit "parseError" -> lit name <> lit "raw" ->
            flag (extractTaggedJson (JSON_parse js) response (lit tag)) name = true <->
            exists props v,
              block_parses js response tag props /\
              lookup_prop (lit name) props = Some v /\ Boolean v = true).
  { intros tag name Hn1 Hn2. split.
    - intros H. apply flag_true in H as (props & v & Hrep & Hv & Hb).
      exists props, v. split; [|done].
      destruct (extract_some_block _ _ _ _ Hrep) as (i & j & Hi & Hj & [Hp|(e & He)]).
      + by exists i, j.
      + injection He as ->. simpl in Hv. unfold jsstring_eqb in Hv.
        rewrite !bool_decide_eq_false_2 in Hv by congruence. done.
    - intros (props & v & (i & j & Hi & Hj & Hp) & Hv & Hb).
      rewrite (extract_found _ _ _ _ _ Hi Hj), Hp.
      unfold flag, optional_get. rewrite Hv. by destruct v. }
  split; [|split; [|split]].
  - unfold builder_update. simpl.
    assert (Hsame : forall (b : bool) w1,
              exitCriteriaMet (builder (state (if b then set_trigger true w1 else w1)))
              = exitCriteriaMet (builder (state w1))) by (by intros []).
    rewrite Hsame. simpl. by apply Hflag.
  - unfold verifier_update, verdict_is. simpl. split.
    + destruct (extractTaggedJson _ _ _) as [[| | | | |props]|] eqn:Hrep;
        simpl; try done.
      destruct (lookup_prop (lit "verdict") props) as [v|] eqn:Hv; [|done].
      intros H. exists props.
      assert (Hv' : v = JString (lit "PASS")).
      { destruct v; simpl in H; try done.
        unfold jsstring_eqb in H. apply bool_decide_eq_true in H. by subst. }
      subst v. split; [|done].
      destruct (extract_some_block _ _ _ _ Hrep) as (i & j & Hi & Hj & [Hp|(e & He)]).
      * by exists i, j.
      * injection He as ->. by vm_compute in Hv.
    + intros (props & (i & j & Hi & Hj & Hp) & Hv).
      rewrite (extract_found _ _ _ _ _ Hi Hj), Hp. simpl. rewrite Hv. reflexivity.
  - intros Hnone. unfold builder_update. rewrite Hnone. simpl. done.
  - intros Hnone. unfold verifier_update. rewrite Hnone. simpl. done.
Qed.

(** *** Completion while the other loops sleep *)

(** X21.  When the Builder's completion check succeeds while the Verifier and
    the Refactorer are asleep, raising the signal resolves both sleeps:
    each loop can be woken at once, whatever is left of its timer, finds
    the signal raised and returns.  Three events end the run, the clock
    has not moved, the state is as it was and no prompt has been sent. *)
Theorem completion_wakes_sleepers dv bv dr br w :
  aborted w = false -> bpc w = BPersistReport -> complete (state w) = true ->
  vpc w = VSleep dv bv -> rpc w = RSleep dr br ->
  exists w',
    run js opts [Persisted Builder None; Woken Verifier; Woken Refactorer] w
      = Some w' /\
    finished w' = true /\ aborted w' = true /\ clock w' = clock w /\
    state w' = state w /\ issued w' = issued w.
Proof.
  intros Ha Hb Hc Hv Hr. unfold complete in Hc.
  eexists. split.
  - simpl. rewrite Hb. unfold builder_check. rewrite Hc.
    unfold do_abort. rewrite Ha, Hv, Hr. simpl.
    unfold verifier_head. simpl. unfold refactorer_head. simpl. reflexivity.
  - simpl. done.
Qed.

(** *** One writer for each record *)

(** X22.  Along every run a record of the shared state changes only in events
    of its own loop: while a loop has no event its record is the same,
    and so is the iteration counter while the Builder has none. *)
Theorem records_have_one_writer r events : forall w w',
  run js opts events w = Some w' -> count_role r events = 0%nat ->
  same_record r (state w) (state w') /\
  (r = Builder -> iteration (state w') = iteration (state w)).
Proof.
  induction events as [|e events IH]; intros w w'; simpl.
  - intros [= <-] _. by destruct r.
  - destruct (step js opts e w) as [w1|] eqn:E; [|done]. intros Hrun Hcnt.
    unfold count_role in Hcnt. rewrite filter_cons in Hcnt.
    destruct (decide (role_of e = Some r)) as [|Hne]; [done|].
    destruct (step_single_writer js opts _ _ _ r E Hne) as (Hrec1 & _ & Hit1).
    destruct (IH _ _ Hrun Hcnt) as (Hrec & Hit).
    split.
    + destruct r; simpl in *; congruence.
    + intros Hr. rewrite (Hit Hr). by apply Hit1.
Qed.

(** *** The Verifier's pace *)

Lemma step_verifier_resting d n v e w w' :
  verifier_resting d n v w -> step js opts e w = Some w' ->
  verifier_resting d n v w'.
Proof.
  unfold verifier_resting. intros Hrest Hstep.
  pose proof (step_clock js opts _ _ _ Hstep) as Hclock.
  destruct (Z.le_gt_cases d (clock w)) as [Hle|Hgt]; [left; lia|].
  destruct Hrest as [Hle|(Hn & Hv & Hpc)]; [lia|].
  destruct (Z.le_gt_cases d (clock w')) as [Hle'|Hgt']; [by left|]. right.
  subst n v. clear Hclock Hgt'.
  destruct Hpc as [Hpc|(Ha & [Hpc|Hpc])].
  - step_cases Hstep;
      try match goal with
          | H : (_ <=? clock _) = true |- _ => apply Z.leb_le in H; lia
          end.
    all: split; [count_issued|]; (split; [done|]).
    all: first [left; done | right; split; [done|]; left; done].
  - step_cases Hstep; rewrite ?Ha in *; simplify_eq/=.
    all: split; [count_issued|]; (split; [done|]).
    all: right; split; [done|]; first [left; done | right; done].
  - step_cases Hstep; rewrite ?Ha in *; simplify_eq/=.
    all: split; [count_issued|]; (split; [done|]).
    all: right; split; [done|]; first [left; done | right; done].
Qed.

Lemma run_verifier_resting d n v events : forall w w',
  verifier_resting d n v w -> run js opts events w = Some w' ->
  verifier_resting d n v w'.
Proof.
  induction events as [|e events IH]; intros w w' Hrest; simpl.
  - by intros [= <-].
  - destruct (step js opts e w) as [w1|] eqn:E; [|done].
    apply IH. by apply (step_verifier_resting d n v e w).
Qed.

(** X23.  After a verification that does not complete the run, the
    Verifier sends no prompt and its record stays as it is until the delay
    of its timer has passed on the clock, whatever the other loops do in
    the meantime.  For a whole number of seconds that delay is
    [verifierIntervalSec * 1000] milliseconds when this lies between 1 and
    2147483647, and 1 millisecond otherwise: [setTimeout] takes a delay
    outside that range for 1.  The bound is met: unless the signal is
    raised, the Verifier can be woken at that very moment and then sends
    its next prompt. *)
Theorem verifier_waits_for_interval w :
  vpc w = VPersist -> complete (state w) = false ->
  (1 <= verifierIntervalSec opts * 1000 <= 2147483647 ->
     timer_delay (verifierIntervalSec opts * 1000) = verifierIntervalSec opts * 1000) /\
  (verifierIntervalSec opts * 1000 < 1 \/ 2147483647 < verifierIntervalSec opts * 1000 ->
     timer_delay (verifierIntervalSec opts * 1000) = 1) /\
  exists w1,
    step js opts (Persisted Verifier None) w = Some w1 /\
    (forall events w2,
       run js opts events w1 = Some w2 ->
       clock w2 < clock w + timer_delay (verifierIntervalSec opts * 1000) ->
       issued_by Verifier w2 = issued_by Verifier w /\
       verifier (state w2) = verifier (state w)) /\
    (aborted w = false ->
     exists w2,
       run js opts [Tick (timer_delay (verifierIntervalSec opts * 1000));
                    Woken Verifier] w1 = Some w2 /\
       clock w2 = clock w + timer_delay (verifierIntervalSec opts * 1000) /\
       issued_by Verifier w2 = S (issued_by Verifier w)).
Proof.
  intros Hpc Hc.
  split.
  { intros H. unfold timer_delay.
    destruct (Z.ltb_spec (verifierIntervalSec opts * 1000) 1); [lia|].
    destruct (Z.ltb_spec 2147483647 (verifierIntervalSec opts * 1000)); [lia|done]. }
  split.
  { intros H. unfold timer_delay.
    destruct (Z.ltb_spec (verifierIntervalSec opts * 1000) 1); [done|].
    destruct (Z.ltb_spec 2147483647 (verifierIntervalSec opts * 1000)); [done|lia]. }
  assert (Hdelay : 1 <= timer_delay (verifierIntervalSec opts * 1000)).
  { unfold timer_delay.
    destruct (Z.ltb_spec (verifierIntervalSec opts * 1000) 1); simpl; [lia|].
    destruct (Z.ltb_spec 2147483647 (verifierIntervalSec opts * 1000)); lia. }
  set (delay := timer_delay (verifierIntervalSec opts * 1000)) in *.
  unfold step. rewrite Hpc. unfold verifier_check.
  rewrite complete_comm, Hc. eexists. split; [done|]. split.
  - intros events w2 Hrun Hclock.
    assert (Hrest : verifier_resting (clock w + delay) (issued_by Verifier w)
                      (verifier (state w)) w2).
    { eapply run_verifier_resting; [|exact Hrun].
      right. unfold sleep. destruct (refactor_wanted (state w)); simpl; auto. }
    destruct Hrest as [Hle|(Hn & Hv & _)]; [lia|done].
  - intros Ha. unfold sleep. fold delay.
    assert (Hsame : forall b : bool,
              aborted (if b then set_trigger true w else w) = false /\
              clock (if b then set_trigger true w else w) = clock w /\
              issued (if b then set_trigger true w else w) = issued w).
    { by intros []. }
    destruct (Hsame (refactor_wanted (state w))) as (Ha1 & Hcl1 & Hi1).
    simpl. destruct (Z.leb_spec 0 delay); [|lia].
    simpl. rewrite Hcl1. rewrite Z.leb_refl. simpl.
    unfold verifier_head. simpl. rewrite Ha1. simpl.
    eexists. split; [reflexivity|]. simpl. rewrite Hcl1. split; [done|].
    unfold issued_by. simpl. rewrite Hi1, filter_app, length_app. simpl. lia.
Qed.

End RunFacts.

(** *** The Builder's prompts and a maximum that is any finite number *)

(** The loop test on a finite number is the test on its ceiling. *)
Lemma below_ceiling n x : below n x = (n <? Qceiling x).
Proof.
  unfold below.
  destruct (Qlt_le_dec (inject_Z n) x) as [Hlt|Hle];
    destruct (Z.ltb_spec n (Qceiling x)) as [Hn|Hn]; try done.
  - exfalso. pose proof (Qle_ceiling x) as Hc.
    assert (H : (inject_Z n < inject_Z (Qceiling x))%Q)
      by (eapply Qlt_le_trans; [exact Hlt|exact Hc]).
    rewrite <- Zlt_Qlt in H. lia.
  - exfalso. pose proof (Qceiling_lt x) as Hc.
    assert (H : (inject_Z n <= inject_Z (Qceiling x - 1))%Q)
      by (rewrite <- Zle_Qle; lia).
    apply (Qlt_irrefl x). eapply Qle_lt_trans; [exact Hle|].
    eapply Qle_lt_trans; [exact H|exact Hc].
Qed.

Lemma builder_head_at_ceiling x interval w :
  builder_head_at x w = builder_head (mkOpts (Qceiling x) interval) w.
Proof. unfold builder_head_at, builder_head. simpl. by rewrite below_ceiling. Qed.

(** X14.  [maxIterations] reaches the loop as [Number(v)], unvalidated, so
    it need not be an integer.  For every finite maximum [x] the loop test
    [iteration < x] is, on the integer counter, the test against the
    ceiling of [x], so the Builder loop runs as with that integer maximum.
    Along every run from the start the counter then stays between 0 and
    the ceiling of [x] (0 when [x] is not positive): it is 0 or below
    [x + 1], which allows three passes for 2.5.  The counter counts the
    Builder's prompts: the prompts sent are the counter, or one less while
    the pass in flight has not sent its prompt yet; once the Builder loop
    has returned the two are equal.  The start time is never touched. *)
Theorem builder_prompts_bounded_by_iterations (js : Js) (x : Q) interval t0 now w0 events w :
  start (mkOpts (Qceiling x) interval) t0 now = Some w0 ->
  run js (mkOpts (Qceiling x) interval) events w0 = Some w ->
  (forall n, below n x = (n <? maxIterations (mkOpts (Qceiling x) interval))) /\
  (forall w1, builder_head_at x w1
              = builder_head (mkOpts (Qceiling x) interval) w1) /\
  0 <= iteration (state w) <= Z.max 0 (Qceiling x) /\
  (iteration (state w) = 0 \/ (inject_Z (iteration (state w)) < x + 1)%Q) /\
  iteration (state w) - 1 <= Z.of_nat (issued_by Builder w) <= iteration (state w) /\
  (bpc w <> BPersistStart -> (forall err, bpc w <> BRejected err) ->
     Z.of_nat (issued_by Builder w) = iteration (state w)) /\
  startedAt (state w) = t0.
Proof.
  intros Hstart Hrun.
  split; [intros n; apply below_ceiling|].
  split; [intros w1; apply builder_head_at_ceiling|].
  destruct (start_builder_inv _ _ _ _ Hstart) as (Hinv0 & Ht0).
  pose proof (run_builder_inv js _ _ _ _ Hinv0 Hrun) as (Hit & Hpc).
  simpl in Hit.
  split; [done|]. split.
  { destruct (Z.eq_dec (iteration (state w)) 0) as [|Hne]; [by left|right].
    pose proof (Qceiling_lt x) as Hc.
    assert (H : (inject_Z (iteration (state w)) <= inject_Z (Qceiling x - 1) + 1)%Q).
    { change 1%Q with (inject_Z 1). rewrite <- inject_Z_plus.
      rewrite <- Zle_Qle. lia. }
    eapply Qle_lt_trans; [exact H|].
    apply Qplus_lt_l. exact Hc. }
  split; [destruct (bpc w); lia|].
  split; [|by rewrite (run_startedAt js _ _ _ _ Hrun)].
  intros Hne Hrej. destruct (bpc w); try done. by destruct (Hrej e).
Qed.

(** A maximum of 2.5 allows three passes. *)
Lemma builder_prompts_bounded_by_iterations_witness :
  exists w,
    run sample_js (mkOpts (Qceiling (5 # 2)) 90) three_passes started = Some w /\
    iteration (state w) = 3 /\ issued_by Builder w = 3%nat /\ bpc w = BDone /\
    (inject_Z (iteration (state w)) < (5 # 2) + 1)%Q.
Proof.
  assert (Hrun : exists w,
             run sample_js (mkOpts (Qceiling (5 # 2)) 90) three_passes started
             = Some w /\
             iteration (state w) = 3 /\ issued_by Builder w = 3%nat /\ bpc w = BDone).
  { eexists. split; [vm_compute; reflexivity|]. repeat split. }
  destruct Hrun as (w & Hrun & Hit & Hn & Hb). exists w.
  repeat (split; [assumption|]).
  destruct (builder_prompts_bounded_by_iterations sample_js (5 # 2) 90 0 0 started
              three_passes w eq_refl Hrun) as (_ & _ & _ & [H0|Hlt] & _).
  - rewrite Hit in H0. discriminate.
  - exact Hlt.
Defined.

Lemma ranCount_counts_answered_prompts_witness :
  exists w,
    run sample_js default_opts refactor_round started = Some w /\
    ranCount (refactorer (state w)) = 1 /\
    ranCount (refactorer (state w)) <= Z.of_nat (issued_by Refactorer w)
      <= ranCount (refactorer (state w)) + 1 /\
    (rpc w = RPrompt ->
       Z.of_nat (issued_by Refactorer w) = ranCount (refactorer (state w)) + 1) /\
    (lastRanAt (refactorer (state w)) = None <-> ranCount (refactorer (state w)) = 0) /\
    (forall t, lastRanAt (refactorer (state w)) = Some t -> t <= clock w).
Proof.
  assert (Hrun : exists w, run sample_js default_opts refactor_round started = Some w)
    by (eexists; vm_compute; reflexivity).
  destruct Hrun as (w & Hrun). exists w. split; [exact Hrun|].
  apply (ranCount_counts_answered_prompts sample_js default_opts 0 0 started
           refactor_round w); [reflexivity|exact Hrun].
Defined.

Lemma refactorer_never_prompts_on_pass_witness :
  exists w,
    run sample_js default_opts refactor_round started = Some w /\
    issued_by Refactorer w = 1%nat /\
    no_refactor_on_pass w.
Proof.
  assert (Hrun : exists w,
             run sample_js default_opts refactor_round started = Some w /\
             issued_by Refactorer w = 1%nat)
    by (eexists; split; [vm_compute; reflexivity|reflexivity]).
  destruct Hrun as (w & Hrun & Hn). exists w.
  split; [exact Hrun|]. split; [exact Hn|].
  apply (refactorer_never_prompts_on_pass sample_js default_opts refactor_round
           started w); [|exact Hrun].
  repeat constructor.
Defined.

Lemma abort_stops_new_prompts_witness :
  exists w w',
    run sample_js default_opts abort_mid_pass started = Some w /\
    aborted w = true /\ bpc w = BPersistStart /\
    run sample_js default_opts [Persisted Builder None] w = Some w' /\
    issued_by Builder w' = S (issued_by Builder w) /\
    issued_by Verifier w' = issued_by Verifier w /\
    issued_by Refactorer w' = issued_by Refactorer w.
Proof.
  assert (Hrun : exists w w',
             run sample_js default_opts abort_mid_pass started = Some w /\
             aborted w = true /\ bpc w = BPersistStart /\
             run sample_js default_opts [Persisted Builder None] w = Some w' /\
             issued_by Builder w' = S (issued_by Builder w)).
  { eexists. eexists. split; [vm_compute; reflexivity|]. repeat split. }
  destruct Hrun as (w & w' & Hrun & Ha & Hpc & Hrun' & Hb). exists w, w'.
  repeat (split; [assumption|]).
  destruct (abort_stops_new_prompts sample_js default_opts
              [Persisted Builder None] w w' Ha Hrun') as (Hv & Hr & _).
  split; assumption.
Defined.

Lemma finished_is_final_witness :
  exists w w',
    run sample_js default_opts completed_run started = Some w /\
    run sample_js default_opts [Tick 5000] w = Some w' /\
    finished w' = true /\ state w' = state w /\ issued w' = issued w.
Proof.
  assert (Hrun : exists w w',
             run sample_js default_opts completed_run started = Some w /\
             finished w = true /\
             run sample_js default_opts [Tick 5000] w = Some w').
  { eexists. eexists. split; [vm_compute; reflexivity|]. repeat split. }
  destruct Hrun as (w & w' & Hrun & Hfin & Hrun'). exists w, w'.
  repeat (split; [assumption|]).
  destruct (finished_is_final sample_js default_opts [Tick 5000] w w' Hfin Hrun')
    as (_ & Hfin' & Hs & Hi & _).
  repeat split; assumption.
Defined.

Lemma trigger_protocol_witness :
  exists w w',
    run sample_js default_opts
      [Prompted Verifier (inl (reply "VERIFIER_REPORT_JSON" verifier_duplication))]
      started = Some w /\
    step sample_js default_opts (Persisted Verifier None) w = Some w' /\
    refactorTriggerRequested w = false /\ refactorTriggerRequested w' = true /\
    refactor_wanted (state w) = true /\ complete (state w) = false.
Proof.
  assert (Hrun : exists w w',
             run sample_js default_opts
               [Prompted Verifier
                  (inl (reply "VERIFIER_REPORT_JSON" verifier_duplication))]
               started = Some w /\
             step sample_js default_opts (Persisted Verifier None) w = Some w' /\
             refactorTriggerRequested w = false /\
             refactorTriggerRequested w' = true).
  { eexists. eexists. split; [vm_compute; reflexivity|]. repeat split. }
  destruct Hrun as (w & w' & Hrun & Hstep & H0 & H1). exists w, w'.
  repeat (split; [assumption|]).
  destruct (trigger_protocol sample_js default_opts _ w w' Hstep) as (_ & Hset).
  destruct (Hset H0 H1) as [(response & He & _)|(_ & Hw & Hc)]; [discriminate|].
  split; assumption.
Defined.

Lemma completion_wakes_sleepers_witness :
  exists w w',
    run sample_js default_opts builder_reports_done started = Some w /\
    run sample_js default_opts
      [Persisted Builder None; Woken Verifier; Woken Refactorer] w = Some w' /\
    finished w' = true /\ aborted w' = true /\ clock w' = clock w /\
    state w' = state w /\ issued w' = issued w.
Proof.
  assert (Hrun : exists w,
             run sample_js default_opts builder_reports_done started = Some w /\
             aborted w = false /\ bpc w = BPersistReport /\
             complete (state w) = true /\
             vpc w = VSleep 90000 false /\ rpc w = RSleep 1000 false).
  { eexists. split; [vm_compute; reflexivity|]. repeat split. }
  destruct Hrun as (w & Hrun & Ha & Hb & Hc & Hv & Hr).
  destruct (completion_wakes_sleepers sample_js default_opts _ _ _ _ w
              Ha Hb Hc Hv Hr) as (w' & H).
  exists w, w'. split; [exact Hrun|exact H].
Defined.

Lemma records_have_one_writer_witness :
  exists w,
    run sample_js default_opts verifier_fails started = Some w /\
    same_record Builder (state started) (state w) /\
    (Builder = Builder -> iteration (state w) = iteration (state started)).
Proof.
  assert (Hrun : exists w, run sample_js default_opts verifier_fails started = Some w)
    by (eexists; vm_compute; reflexivity).
  destruct Hrun as (w & Hrun). exists w. split; [exact Hrun|].
  apply (records_have_one_writer sample_js default_opts Builder verifier_fails
           started w Hrun).
  reflexivity.
Defined.

(** An interval of 3000000 seconds is past the range of the timer: the
    Verifier asks again after one millisecond. *)
Lemma verifier_waits_for_interval_witness :
  timer_delay (verifierIntervalSec (mkOpts 80 3000000) * 1000) = 1 /\
  exists w w1 w2,
    run sample_js (mkOpts 80 3000000)
      [Prompted Verifier (inl (reply "VERIFIER_REPORT_JSON" verifier_fail))]
      started = Some w /\
    step sample_js (mkOpts 80 3000000) (Persisted Verifier None) w = Some w1 /\
    run sample_js (mkOpts 80 3000000) [Tick 1; Woken Verifier] w1 = Some w2 /\
    clock w2 = 1 /\ issued_by Verifier w2 = 2%nat.
Proof.
  assert (Hrun : exists w,
             run sample_js (mkOpts 80 3000000)
               [Prompted Verifier (inl (reply "VERIFIER_REPORT_JSON" verifier_fail))]
               started = Some w /\
             vpc w = VPersist /\ complete (state w) = false /\
             clock w = 0 /\ issued_by Verifier w = 1%nat /\ aborted w = false).
  { eexists. split; [vm_compute; reflexivity|]. repeat split. }
  destruct Hrun as (w & Hrun & Hpc & Hc & Hclock & Hn & Ha).
  destruct (verifier_waits_for_interval sample_js (mkOpts 80 3000000) w Hpc Hc)
    as (_ & Hclamp & w1 & Hstep & _ & Hnext).
  assert (Hd : timer_delay (verifierIntervalSec (mkOpts 80 3000000) * 1000) = 1)
    by (apply Hclamp; right; simpl; lia).
  destruct (Hnext Ha) as (w2 & Hrun2 & Hclock2 & Hn2).
  rewrite Hd in Hrun2, Hclock2. rewrite Hclock in Hclock2. rewrite Hn in Hn2.
  split; [exact Hd|]. exists w, w1, w2.
  split; [exact Hrun|]. split; [exact Hstep|]. split; [exact Hrun2|].
  split; [exact Hclock2|exact Hn2].
Defined.

End OrchestratorMore.
